(** * V-See Windows: media resolution, fallback loading and viewer context

    A shallow embedding of the browser front end of V-See Windows
    (ThumbnailGrid.js, viewer.js and the application entry point) together
    with the properties its design document states about it.

    Strings are Rocq strings of 8-bit characters; the model of the JavaScript
    string built-ins below is the one for ASCII text. *)

From Stdlib Require Import ZArith Ascii Sorted DecimalString DecimalNat.
From stdpp Require Import base decidable option list strings gmap.

Local Open Scope string_scope.

(** ** JavaScript built-ins used by the front end *)

Module Js.

(** The double-quote character, spelled by its code. *)
Definition dquote : ascii := Ascii.ascii_of_nat 34.
Definition backslash : ascii := Ascii.ascii_of_nat 92.
Definition slash : ascii := Ascii.ascii_of_nat 47.

Definition is_upper (c : ascii) : bool :=
  let n := Ascii.nat_of_ascii c in (65 <=? n)%nat && (n <=? 90)%nat.

Definition lower_ascii (c : ascii) : ascii :=
  if is_upper c then Ascii.ascii_of_nat (Ascii.nat_of_ascii c + 32) else c.

(** [String.prototype.toLowerCase]. *)
Fixpoint toLowerCase (s : string) : string :=
  match s with
  | EmptyString => EmptyString
  | String c s' => String (lower_ascii c) (toLowerCase s')
  end.

(** [String.prototype.split] with a one-character separator: the pieces
    between the separators, never an empty array. *)
Fixpoint split (sep : ascii) (s : string) : list string :=
  match s with
  | EmptyString => [EmptyString]
  | String c s' =>
      if Ascii.eqb c sep then EmptyString :: split sep s'
      else match split sep s' with
           | [] => [String c EmptyString]
           | piece :: pieces => String c piece :: pieces
           end
  end.

(** [Array.prototype.pop] read for its result: the last element, or
    [undefined] (here [None]) on an empty array. *)
Definition pop {A} (l : list A) : option A := last l.

(** [x || d] on a possibly undefined string: the empty string is falsy. *)
Definition or_else (x : option string) (d : string) : string :=
  match x with
  | Some EmptyString | None => d
  | Some s => s
  end.

(** White space removed by [String.prototype.trim] (ASCII part). *)
Definition is_space (c : ascii) : bool :=
  let n := Ascii.nat_of_ascii c in
  (n =? 32)%nat || ((9 <=? n)%nat && (n <=? 13)%nat).

Fixpoint trimStart (s : string) : string :=
  match s with
  | String c s' => if is_space c then trimStart s' else s
  | EmptyString => EmptyString
  end.

(** Trailing white space is dropped from the right: a space is kept
    only when something that is kept follows it. *)
Fixpoint trimEnd (s : string) : string :=
  match s with
  | EmptyString => EmptyString
  | String c s' =>
      match trimEnd s' with
      | EmptyString => if is_space c then EmptyString else String c EmptyString
      | rest => String c rest
      end
  end.

Definition trim (s : string) : string := trimEnd (trimStart s).

(** [s.replace(/x/g, y)] for single characters. *)
Fixpoint replaceAll (x y : ascii) (s : string) : string :=
  match s with
  | EmptyString => EmptyString
  | String c s' => String (if Ascii.eqb c x then y else c) (replaceAll x y s')
  end.

(** [String.prototype.lastIndexOf] of one character; [None] stands for -1. *)
Fixpoint lastIndexOf (x : ascii) (s : string) : option nat :=
  match s with
  | EmptyString => None
  | String c s' =>
      match lastIndexOf x s' with
      | Some i => Some (S i)
      | None => if Ascii.eqb c x then Some 0%nat else None
      end
  end.

(** [s.slice(0, i)] and [s.slice(i)] for an index within the string. *)
Definition slice_to (i : nat) (s : string) : string := String.substring 0 i s.
Definition slice_from (i : nat) (s : string) : string :=
  String.substring i (String.length s - i) s.

(** *** Collation

    [a.localeCompare(b, undefined, { sensitivity: 'base' })] compares the
    primary collation weights only: letters differing in case are equal.
    On ASCII the primary order of the root collation is: the space, the
    punctuation and symbols in the order listed here, the digits, then
    the letters. Characters outside the table carry no primary weight. *)
Definition collation_order : string :=
  " _-,;:!?.'" +:+ String dquote "()[]{}@*/" +:+ String backslash
  "&#%`^+<=>|~$0123456789abcdefghijklmnopqrstuvwxyz".

Fixpoint index_of (c : ascii) (s : string) : option nat :=
  match s with
  | EmptyString => None
  | String d s' => if Ascii.eqb c d then Some 0%nat else S <$> index_of c s'
  end.

Definition primary_weight (c : ascii) : option nat :=
  index_of (lower_ascii c) collation_order.

Fixpoint primary_key (s : string) : list nat :=
  match s with
  | EmptyString => []
  | String c s' =>
      match primary_weight c with
      | Some w => w :: primary_key s'
      | None => primary_key s'
      end
  end.

Fixpoint compare_keys (k1 k2 : list nat) : comparison :=
  match k1, k2 with
  | [], [] => Eq
  | [], _ :: _ => Lt
  | _ :: _, [] => Gt
  | w1 :: r1, w2 :: r2 =>
      match Nat.compare w1 w2 with
      | Eq => compare_keys r1 r2
      | c => c
      end
  end.

Definition localeCompare_base (a b : string) : comparison :=
  compare_keys (primary_key a) (primary_key b).

(** [Array.prototype.sort] with a comparator. The sort is stable: of two
    elements that compare equal the one that came first stays first. *)
Section Sort.
Context {A : Type} (cmp : A -> A -> comparison).

Fixpoint insert_stable (x : A) (l : list A) : list A :=
  match l with
  | [] => [x]
  | y :: l' =>
      match cmp x y with
      | Gt => y :: insert_stable x l'
      | _ => x :: l
      end
  end.

Definition sort (l : list A) : list A := foldr insert_stable [] l.
End Sort.

(** [Array.prototype.includes] on an array of strings. *)
Definition includes (l : list string) (x : string) : bool :=
  bool_decide (x ∈ l).

(** *** Numbers and strings *)

Definition digit (c : ascii) : option nat :=
  let n := Ascii.nat_of_ascii c in
  if (48 <=? n)%nat && (n <=? 57)%nat then Some (n - 48)%nat else None.

(** The value of the longest run of decimal digits at the head of [s],
    continuing from [acc]. *)
Fixpoint digits (acc : nat) (s : string) : nat :=
  match s with
  | EmptyString => acc
  | String c r =>
      match digit c with
      | Some d => digits (10 * acc + d) r
      | None => acc
      end
  end.

(** [parseInt(s, 10)]: leading white space is skipped, a sign is read,
    then the longest run of decimal digits; [None] is NaN, the answer when
    no digit is found there. *)
Definition parseInt10 (s : string) : option Z :=
  let t := trimStart s in
  let '(negative, u) :=
    match t with
    | String "-" r => (true, r)
    | String "+" r => (false, r)
    | _ => (false, t)
    end in
  match u with
  | String c _ =>
      match digit c with
      | Some _ =>
          let n := Z.of_nat (digits 0 u) in
          Some (if negative then (- n)%Z else n)
      | None => None
      end
  | EmptyString => None
  end.

(** [String(n)] for a non-negative integer: its decimal digits. *)
Definition numberToString (n : nat) : string :=
  NilEmpty.string_of_uint (Nat.to_uint n).

End Js.

(** ** The webview seen from the scripts

    The scripts create an [img] or [video] element, give it a source and an
    error handler, and the webview later reports whether the source loaded.
    An element is modelled by the last source assigned to it, whether a load
    of that source is still to be reported, the handler installed, what the
    pane shows, and the chronological log of what the script did. *)

Module Dom.

(** The Tauri bridge and the answers of the backend. [convertFileSrc] is
    [None] outside Tauri and answers [None] when it throws; a backend
    command answers [None] when its promise rejects. *)
Record Env := {
  convertFileSrc : option (string -> option string);
  invoke_available : bool;
  loads : string -> bool;
  read_file_as_data_url : string -> option string;
  get_video_thumbnail_data_url : string -> option string;
  read_file_as_audio_url : string -> option string;
  plays : string -> bool
}.

Inductive Effect :=
| AssetRef (path : string)          (* convertFileSrc(path) *)
| Invoke (cmd : string) (path : string)   (* invoke(cmd, { path }) *)
| SetSrc (url : string)             (* element.src = url *)
| Placeholder (text : string)       (* a textual placeholder is rendered *)
| Hide                              (* img.style.visibility = 'hidden' *)
| PlayMedia                         (* element.play() *)
| Help (text : string) (isError : bool).  (* setHelpMessage *)

Inductive View :=
| Blank                             (* the element is there, nothing loaded *)
| Showing (url : string)            (* the element shows the loaded source *)
| Text (text : string)              (* a textual placeholder *)
| Hidden.                           (* the element is kept but made invisible *)

(** The closures the scripts install as [onerror]. *)
Inductive Handler :=
| NoHandler
| PreviewImgError          (* entry point, img.onerror = async () => ... *)
| PreviewSetPlaceholder    (* entry point, img.onerror = setPlaceholder *)
| PreviewVideoError        (* entry point, video.onerror *)
| ViewerImgError           (* viewer.js, img.onerror *)
| GridImgError.            (* ThumbnailGrid.js, img.onerror *)

Record St := {
  src : option string;
  loading : bool;
  onerror : Handler;
  view : View;
  log : list Effect
}.

Definition fresh : St :=
  {| src := None; loading := false; onerror := NoHandler; view := Blank; log := [] |}.

Definition emit (e : Effect) (st : St) : St :=
  {| src := src st; loading := loading st; onerror := onerror st;
     view := view st; log := log st ++ [e] |}.

(** [element.src = url]: the webview starts loading [url]. *)
Definition set_src (url : string) (st : St) : St :=
  {| src := Some url; loading := true; onerror := onerror st;
     view := view st; log := log st ++ [SetSrc url] |}.

Definition set_onerror (h : Handler) (st : St) : St :=
  {| src := src st; loading := loading st; onerror := h;
     view := view st; log := log st |}.

(** The pane's content is replaced by a paragraph of text. *)
Definition show_text (text : string) (st : St) : St :=
  {| src := src st; loading := loading st; onerror := onerror st;
     view := Text text; log := log st ++ [Placeholder text] |}.

Definition hide (st : St) : St :=
  {| src := src st; loading := loading st; onerror := onerror st;
     view := Hidden; log := log st ++ [Hide] |}.

(** The load succeeded; an element that was replaced by a placeholder or
    hidden in the meantime stays so. *)
Definition loaded (url : string) (st : St) : St :=
  {| src := src st; loading := false; onerror := onerror st;
     view := match view st with
             | Blank | Showing _ => Showing url
             | v => v
             end;
     log := log st |}.

Definition failed (st : St) : St :=
  {| src := src st; loading := false; onerror := onerror st;
     view := view st; log := log st |}.

(** An empty [src] attribute makes the webview report an error at once. *)
Definition webview_loads (env : Env) (url : string) : bool :=
  match url with
  | EmptyString => false
  | _ => loads env url
  end.

(** [a || b] on strings. *)
Definition or_str (a b : string) : string :=
  match a with EmptyString => b | _ => a end.

(** How many times a backend command was invoked. *)
Definition is_invoke (e : Effect) : bool :=
  match e with Invoke _ _ => true | _ => false end.
Definition is_asset_ref (e : Effect) : bool :=
  match e with AssetRef _ => true | _ => false end.
Definition invocations (st : St) : nat :=
  length (List.filter is_invoke (log st)).

End Dom.

Import Dom.

(** ** components/ThumbnailGrid.js *)

Module ThumbnailGrid.

Definition IMAGE_EXT : gset string :=
  list_to_set ["jpg"; "jpeg"; "png"; "gif"; "bmp"; "webp"; "tiff"; "tif"; "ico"; "svg"].
Definition VIDEO_EXT : gset string :=
  list_to_set ["mp4"; "mov"; "avi"; "webm"; "mkv"; "m4v"; "wmv"].
Definition HEIC_EXT : gset string := list_to_set ["heic"; "heif"].
Definition PDF_EXT : gset string := list_to_set ["pdf"].

(** [set.has(x)]. *)
Definition has (s : gset string) (x : string) : bool := bool_decide (x ∈ s).

Definition getExt (name : string) : string :=
  Js.toLowerCase (Js.or_else (Js.pop (Js.split "." name)) "").

Definition isMediaFile (name : string) : bool :=
  let ext := getExt name in
  has IMAGE_EXT ext || has VIDEO_EXT ext || has HEIC_EXT ext || has PDF_EXT ext.

Definition isHeic (name : string) : bool := has HEIC_EXT (getExt name).
Definition isPdf (name : string) : bool := has PDF_EXT (getExt name).
Definition isVideo (name : string) : bool := has VIDEO_EXT (getExt name).

(** A directory entry as [list_directory] returns it. *)
Record Entry := { name : string; path : string; is_dir : bool }.

(** The answer of [list_directory]. *)
Record ListResult := {
  ok : bool;
  entries : option (list Entry);
  error : option string
}.

(** Lines 76-77: the media files of a listing, sorted by name. *)
Definition mediaFiles (es : list Entry) : list Entry :=
  Js.sort (fun a b => Js.localeCompare_base (name a) (name b))
          (List.filter (fun e => negb (is_dir e) && isMediaFile (name e)) es).

(** The kinds of the design document. [kindOf] is the kind a cell is
    rendered as: the branches of lines 94-148, taken in the order the code
    tests them, for a file that passed [isMediaFile]. The grid never
    produces [Audio], which belongs to the playable list. *)
Inductive Kind := Image | Video | Audio | Heic | Pdf.

Definition kindOf (name : string) : option Kind :=
  if negb (isMediaFile name) then None
  else if isHeic name then Some Heic
  else if isPdf name then Some Pdf
  else if isVideo name then Some Video
  else Some Image.

(** Lines 135-147: the error handler of an image thumbnail. *)
Definition imgOnError (env : Env) (path : string) (st : St) : St :=
  if invoke_available env then
    let st := emit (Invoke "read_file_as_data_url" path) st in
    match read_file_as_data_url env path with
    | Some dataUrl => set_src dataUrl st
    | None => hide st
    end
  else hide st.

(** Lines 94-150: the content of one cell. For a video the answer of the
    thumbnail request is applied as well; the cell is still the one that
    was built for the file when the answer arrives ([img.parentNode] is set
    and [data-path] is unchanged). *)
Definition thumbnail (env : Env) (file : Entry) : St :=
  if isHeic (name file) then show_text "HEIC" fresh
  else if isPdf (name file) then show_text "PDF" fresh
  else if isVideo (name file) then
    let st := set_src "" fresh in
    if invoke_available env then
      let st := emit (Invoke "get_video_thumbnail_data_url" (path file)) st in
      match get_video_thumbnail_data_url env (path file) with
      | Some dataUrl => set_src dataUrl st
      | None => show_text "Video" st
      end
    else st
  else
    let st :=
      match convertFileSrc env with
      | Some conv =>
          let st := emit (AssetRef (path file)) fresh in
          match conv (path file) with
          | Some url => set_src url st
          | None => set_src "" st
          end
      | None => fresh
      end in
    set_onerror GridImgError st.

Record Cell := { data_path : string; label : string; thumb : St }.

Definition cellOf (env : Env) (file : Entry) : Cell :=
  {| data_path := path file; label := name file; thumb := thumbnail env file |}.

(** What [loadThumbnails] leaves behind: the grid is either one message
    or the cells, one of them selected, and [onSelect] was called with
    the recorded arguments. *)
Inductive GridView :=
| Message (text : string)
| Cells (cells : list Cell) (selected : option nat).

Record GridResult := {
  grid : GridView;
  paths : list string;                   (* the array handed to onActivate *)
  onSelect_call : option (string * string)
}.

Definition message (text : string) : GridResult :=
  {| grid := Message text; paths := []; onSelect_call := None |}.

(** Lines 165-175: the cell whose [data-path] is the path to restore. *)
Definition pathToSelect (initialSelectedPath : option string) : option string :=
  match initialSelectedPath with
  | Some p => match Js.trim p with EmptyString => None | t => Some t end
  | None => None
  end.

Definition findCell (cells : list Cell) (p : string) : option (nat * Cell) :=
  list_find (fun c => data_path c = p) cells.

Definition loadThumbnails
    (env : Env) (list_directory : string -> option ListResult)
    (folderPath : string) (onSelect : bool)
    (initialSelectedPath : option string) : GridResult :=
  if negb (invoke_available env) then message "Tauri API not available"
  else match list_directory folderPath with
  | None => message "Error loading folder"
  | Some result =>
      match (if ok result then entries result else None) with
      | None => message (Js.or_else (error result) "Could not read folder")
      | Some es =>
          let files := mediaFiles es in
          match files with
          | [] => message "No images or videos in this folder"
          | _ :: _ =>
              let cells := map (cellOf env) files in
              let cellToSelect :=
                match pathToSelect initialSelectedPath with
                | Some p => findCell cells p
                | None => None
                end in
              let cellToSelect :=
                match cellToSelect with
                | Some c => Some c
                | None => match cells with c :: _ => Some (0%nat, c) | [] => None end
                end in
              {| grid := Cells cells (fst <$> cellToSelect);
                 paths := map path files;
                 onSelect_call :=
                   match cellToSelect with
                   | Some (_, c) =>
                       if onSelect && negb (String.eqb (data_path c) "")
                       then Some (data_path c, label c) else None
                   | None => None
                   end |}
          end
      end
  end.

(** Lines 158-161: a double click on cell [i] hands the whole path array
    and [i] to [onActivate]. *)
Definition dblclick (r : GridResult) (i : nat) : option (list string * nat) :=
  match grid r with
  | Cells cells _ => if decide (i < length cells)%nat then Some (paths r, i) else None
  | Message _ => None
  end.

End ThumbnailGrid.

Import ThumbnailGrid.

(** ** viewer.js *)

Module Viewer.

(** A value as the bridge hands it over. Numbers are the integers. *)
Inductive JsVal :=
| JUndefined
| JNull
| JBool (b : bool)
| JNum (z : Z)
| JStr (s : string).

Definition getName (path : string) : string :=
  let s := Js.replaceAll Js.backslash Js.slash path in
  match Js.lastIndexOf Js.slash s with
  | Some i => Js.slice_from (i + 1) s
  | None => s
  end.

Definition getExt (name : string) : string :=
  Js.toLowerCase (Js.or_else (Js.pop (Js.split "." name)) "").

Definition isVideo (name : string) : bool :=
  Js.includes ["mp4"; "mov"; "avi"; "webm"; "mkv"; "m4v"; "wmv"] (getExt name).
Definition isHeic (name : string) : bool :=
  Js.includes ["heic"; "heif"] (getExt name).
Definition isPdf (name : string) : bool := String.eqb (getExt name) "pdf".

(** The content area and the file name line. *)
Record Pane := { content : St; filename : string }.

(** [setPlaceholder(text)]: the text, or 'No image' when it is empty, and
    the file name line is cleared. *)
Definition setPlaceholder (text : string) (st : St) : Pane :=
  {| content := show_text (or_str text "No image") st; filename := "" |}.

(** Lines 98-108: the error handler of the image. The event loop follows
    the content area; the file name line that [fallback] clears is not
    carried along. *)
Definition imgOnError (env : Env) (path name : string) (st : St) : St :=
  if negb (invoke_available env) then content (setPlaceholder name st)
  else
    let st := emit (Invoke "read_file_as_data_url" path) st in
    match read_file_as_data_url env path with
    | Some dataUrl => set_src dataUrl st
    | None => content (setPlaceholder name st)
    end.

(** [showImage(path, name)]; [None] when an exception escapes. *)
Definition showImage (env : Env) (path name : string) : option Pane :=
  if isHeic name then
    Some {| content := show_text "HEIC" fresh; filename := name |}
  else if isPdf name then
    Some {| content := show_text "PDF cannot be displayed." fresh; filename := name |}
  else if isVideo name then
    match convertFileSrc env with
    | Some conv =>
        match conv path with
        | Some EmptyString =>
            Some {| content := show_text name (emit (AssetRef path) fresh);
                    filename := name |}
        | Some url =>
            Some {| content := set_src url (emit (AssetRef path) fresh);
                    filename := name |}
        | None => None
        end
    | None => Some {| content := show_text name fresh; filename := name |}
    end
  else
    match convertFileSrc env with
    | Some conv =>
        let st := emit (AssetRef path) fresh in
        match conv path with
        | Some url =>
            Some {| content := set_onerror ViewerImgError (set_src url st);
                    filename := name |}
        | None => Some (setPlaceholder name st)
        end
    | None =>
        Some {| content := set_onerror ViewerImgError fresh; filename := name |}
    end.

(** [updateDisplay(path, name)]. *)
Definition updateDisplay (env : Env) (path name : string) : option Pane :=
  match path with
  | EmptyString => Some (setPlaceholder "No image" fresh)
  | _ => showImage env path name
  end.

(** The variables of the window and what it shows. *)
Record State := { paths : list string; index : Z; pane : Pane }.

Definition initial : State :=
  {| paths := []; index := 0;
     pane := {| content := fresh; filename := "" |} |}.

(** The answer of [get_viewer_context]: [result], [result[0]] and
    [result[1]], each possibly missing. *)
Definition Context : Type := option (option (list string) * JsVal).

(** [paths[index]]: [undefined] outside the array. *)
Definition item (ps : list string) (i : Z) : option string :=
  if decide (0 <= i)%Z then ps !! Z.to_nat i else None.

(** Lines 225-227 and 238-240: the new [paths] and [index]. *)
Definition clampIndex (ps : list string) (v : JsVal) : Z :=
  let index := match v with JNum z => z | _ => 0%Z end in
  if decide (Z.of_nat (length ps) <= index)%Z
  then (Z.of_nat (length ps) - 1)%Z else index.

(** The body shared by the two [then] callbacks, after the emptiness
    test: the assignments, then the display. The second component is
    [false] when an exception escaped after the assignments. *)
Definition adopt (env : Env) (ps : list string) (v : JsVal) (s : State)
  : State * bool :=
  let i := clampIndex ps v in
  match item ps i with
  | Some path =>
      match updateDisplay env path (getName path) with
      | Some p => ({| paths := ps; index := i; pane := p |}, true)
      | None => ({| paths := ps; index := i; pane := pane s |}, false)
      end
  | None => ({| paths := ps; index := i; pane := pane s |}, false)
  end.

Definition usable (c : Context) : option (list string * JsVal) :=
  match c with
  | Some (Some (p :: ps), v) => Some (p :: ps, v)
  | _ => None
  end.

(** Lines 220-233; [None] is a rejected promise. *)
Definition init (env : Env) (answer : option Context) (s : State) : State :=
  if negb (invoke_available env) then
    {| paths := paths s; index := index s;
       pane := setPlaceholder "Tauri API not available" (content (pane s)) |}
  else
  match answer with
  | None =>
      {| paths := paths s; index := index s;
         pane := setPlaceholder "Failed to load context" (content (pane s)) |}
  | Some c =>
      match usable c with
      | None =>
          {| paths := paths s; index := index s;
             pane := setPlaceholder "No images" (content (pane s)) |}
      | Some (ps, v) =>
          let '(s', fine) := adopt env ps v s in
          if fine then s'
          else {| paths := paths s'; index := index s';
                  pane := setPlaceholder "Failed to load context" (content (pane s')) |}
      end
  end.

(** Lines 234-244, the focus listener. *)
Definition syncFromState (env : Env) (answer : option Context) (s : State) : State :=
  if negb (invoke_available env) || bool_decide (paths s = []) then s
  else
  match answer with
  | None => s
  | Some c =>
      match usable c with
      | None => s
      | Some (ps, v) => fst (adopt env ps v s)
      end
  end.

(** [goPrev] and [goNext]: the answer of [viewer_prev] or [viewer_next]
    is displayed when it names a path. *)
Definition shown (env : Env) (answer : option (option (string * string)))
    (s : State) : State :=
  if negb (invoke_available env) then s
  else
  match answer with
  | Some (Some (path, name)) =>
      match path with
      | EmptyString => s
      | _ =>
          match updateDisplay env path name with
          | Some p => {| paths := paths s; index := index s; pane := p |}
          | None => s
          end
      end
  | _ => s
  end.

(** *** The slideshow *)

(** The timer, if one runs, with the interval it was created with; the
    configured interval; and the text of the slideshow button once the
    script has written it. *)
Record Slideshow := {
  slideshowTimer : option Z;
  slideshowIntervalMs : Z;
  slideshowButton : option string
}.

Definition noSlideshow : Slideshow :=
  {| slideshowTimer := None; slideshowIntervalMs := 3000; slideshowButton := None |}.

Definition startSlideshow (s : Slideshow) : Slideshow :=
  match slideshowTimer s with
  | Some _ => s
  | None =>
      {| slideshowTimer := Some (slideshowIntervalMs s);
         slideshowIntervalMs := slideshowIntervalMs s;
         slideshowButton := Some "Slideshow OFF" |}
  end.

Definition stopSlideshow (s : Slideshow) : Slideshow :=
  {| slideshowTimer := None;
     slideshowIntervalMs := slideshowIntervalMs s;
     slideshowButton := Some "Slideshow ON" |}.

Definition toggleSlideshow (s : Slideshow) : Slideshow :=
  match slideshowTimer s with
  | Some _ => stopSlideshow s
  | None => startSlideshow s
  end.

(** [!isNaN(n) && n >= 1 && n <= 3600]. *)
Definition validSeconds (n : option Z) : option Z :=
  match n with
  | Some z => if (1 <=? z)%Z && (z <=? 3600)%Z then Some z else None
  | None => None
  end.

Definition withInterval (ms : Z) (s : Slideshow) : Slideshow :=
  {| slideshowTimer := slideshowTimer s;
     slideshowIntervalMs := ms;
     slideshowButton := slideshowButton s |}.

(** Lines 193-206, the configuration button: [answer] is what the prompt
    returned, [None] when it was cancelled. The second component is the
    call of [set_persisted] made. *)
Definition configure (env : Env) (answer : option string) (s : Slideshow)
  : Slideshow * option (string * string) :=
  match answer with
  | None => (s, None)
  | Some interval =>
      match validSeconds (Js.parseInt10 interval) with
      | Some n =>
          let s1 := withInterval (n * 1000) s in
          (match slideshowTimer s1 with
           | Some _ => startSlideshow (stopSlideshow s1)
           | None => s1
           end,
           if invoke_available env
           then Some ("slideshow_interval_seconds", Js.numberToString (Z.to_nat n))
           else None)
      | None => (s, None)
      end
  end.

(** Lines 214-219: the interval read back at the start; [val] is the
    answer of [get_persisted]. *)
Definition restoreInterval (val : option string) (s : Slideshow) : Slideshow :=
  match val with
  | Some (String _ _ as v) =>
      match validSeconds (Js.parseInt10 v) with
      | Some n => withInterval (n * 1000) s
      | None => s
      end
  | _ => s
  end.

(** What the user does with the slideshow controls. *)
Inductive Control :=
| ClickSlideshow
| ClickConfig (answer : option string).

Definition control (env : Env) (c : Control) (s : Slideshow) : Slideshow :=
  match c with
  | ClickSlideshow => toggleSlideshow s
  | ClickConfig answer => fst (configure env answer s)
  end.

Definition controls (env : Env) (cs : list Control) (s : Slideshow) : Slideshow :=
  foldl (fun s c => control env c s) s cs.

End Viewer.

(** ** The application entry point (main window script) *)

Module Main.

Definition getExt (name : string) : string :=
  Js.toLowerCase (Js.or_else (Js.pop (Js.split "." name)) "").

Definition isVideo (name : string) : bool :=
  Js.includes ["mp4"; "mov"; "avi"; "webm"; "mkv"; "m4v"; "wmv"] (getExt name).
Definition isHeic (name : string) : bool :=
  Js.includes ["heic"; "heif"] (getExt name).
Definition isPdf (name : string) : bool := String.eqb (getExt name) "pdf".

(** [setVideoPlaceholder(msg)] inside [showPreview]. *)
Definition setVideoPlaceholder (name msg : string) (st : St) : St :=
  show_text (or_str msg (or_str name "Video could not be loaded")) st.

(** [setPlaceholder()] inside [showPreview]. *)
Definition setPlaceholder (name : string) (st : St) : St := show_text name st.

(** Lines 90-102: the first error handler of the preview image. *)
Definition imgOnError (env : Env) (filePath name : string) (st : St) : St :=
  if negb (invoke_available env) then setPlaceholder name st
  else
    let st := emit (Invoke "read_file_as_data_url" filePath) st in
    match read_file_as_data_url env filePath with
    | Some dataUrl => set_onerror PreviewSetPlaceholder (set_src dataUrl st)
    | None => setPlaceholder name st
    end.

(** [showPreview(filePath, name)], up to the first event. *)
Definition showPreview (env : Env) (filePath name : string) : St :=
  if isHeic name then show_text "HEIC" fresh
  else if isPdf name then show_text "PDF cannot be displayed." fresh
  else if isVideo name then
    match convertFileSrc env with
    | Some conv =>
        let st := emit (AssetRef filePath) fresh in
        match conv filePath with
        | Some url =>
            emit PlayMedia (set_onerror PreviewVideoError (set_src url st))
        | None => setVideoPlaceholder name "" st
        end
    | None => setVideoPlaceholder name "Tauri not available" fresh
    end
  else
    match convertFileSrc env with
    | Some conv =>
        let st := emit (AssetRef filePath) fresh in
        match conv filePath with
        | Some url => set_onerror PreviewImgError (set_src url st)
        | None => setPlaceholder name st
        end
    | None => set_onerror PreviewImgError fresh
    end.

(** [dirname(p)] for a string [p]. *)
Definition dirname (p : string) : string :=
  match p with
  | EmptyString => ""
  | _ =>
      let s := Js.replaceAll Js.slash Js.backslash (Js.trim p) in
      match Js.lastIndexOf Js.backslash s with
      | None => s
      | Some i =>
          let out := Js.slice_to i s in
          if (String.length out =? 2)%nat &&
             bool_decide (String.get 1 out = Some ":"%char)
          then out +:+ String Js.backslash ""
          else out
      end
  end.

(** A persisted value as the script keeps it: trimmed, [None] when empty
    or absent (lines 137-140). *)
Definition persisted (v : option string) : option string :=
  match v with
  | Some s => match Js.trim s with EmptyString => None | t => Some t end
  | None => None
  end.



(** Lines 193-198: the activation callback; [Some] is the call of
    [open_viewer_window] it makes. *)
Definition onActivate (env : Env) (arg : list string * nat)
  : option (list string * nat) :=
  match arg with
  | (_ :: _, _) => if invoke_available env then Some arg else None
  | ([], _) => None
  end.

(** *** The audio player *)

Record Player := {
  audio_src : option string;          (* audioEl.src *)
  paused : bool;
  selectedTrackPath : option string;
  plog : list Effect
}.

Definition idle : Player :=
  {| audio_src := None; paused := true; selectedTrackPath := None; plog := [] |}.

Definition say (e : Effect) (p : Player) : Player :=
  {| audio_src := audio_src p; paused := paused p;
     selectedTrackPath := selectedTrackPath p; plog := plog p ++ [e] |}.

(** [audioEl.play()] on the current source. *)
Definition play (env : Env) (p : Player) : Player * bool :=
  let p := say PlayMedia p in
  match audio_src p with
  | Some u =>
      if plays env u
      then ({| audio_src := audio_src p; paused := false;
               selectedTrackPath := selectedTrackPath p; plog := plog p |}, true)
      else (p, false)
  | None => (p, false)
  end.

(** Lines 255-280. The audio element is present. *)
Definition startAudioPlayback (env : Env) (filePath : string) (p : Player) : Player :=
  match filePath with
  | EmptyString => say (Help "Audio not available." true) p
  | _ =>
      if negb (invoke_available env) then say (Help "Tauri not available." true) p
      else
        let p := say (Help "Loading…" false) p in
        let p := say (Invoke "read_file_as_audio_url" filePath) p in
        match read_file_as_audio_url env filePath with
        | None => say (Help "Playback failed" true) p   (* the text of the exception is left out *)
        | Some dataUrl =>
            let p := say (Help "" false) p in
            match dataUrl with
            | EmptyString => say (Help "Playback failed: no data." true) p
            | _ =>
                let p := {| audio_src := Some dataUrl; paused := true;
                            selectedTrackPath := selectedTrackPath p;
                            plog := plog p ++ [SetSrc dataUrl] |} in
                let '(p, fine) := play env p in
                if fine then p else say (Help "Playback failed" true) p
            end
        end
  end.

Inductive Event :=
| SelectTrack (filePath : string)   (* a click in the playable list *)
| ClickPlay
| ClickStop.

Definition handle (env : Env) (e : Event) (p : Player) : Player :=
  match e with
  | SelectTrack filePath =>
      startAudioPlayback env filePath
        {| audio_src := audio_src p; paused := paused p;
           selectedTrackPath := Some filePath; plog := plog p |}
  | ClickPlay =>
      match selectedTrackPath p with
      | None | Some EmptyString =>
          say (Help "Select a track from the list first." true) p
      | Some track =>
          if paused p then
            match audio_src p with
            | Some _ =>
                let '(p', fine) := play env p in
                if fine then p' else say (Help "Playback failed" true) p'
            | None => startAudioPlayback env track p
            end
          else {| audio_src := audio_src p; paused := true;
                  selectedTrackPath := selectedTrackPath p; plog := plog p |}
      end
  | ClickStop =>
      say (Help "" false)
        {| audio_src := audio_src p; paused := true;
           selectedTrackPath := selectedTrackPath p; plog := plog p |}
  end.

Definition handleAll (env : Env) (es : list Event) (p : Player) : Player :=
  foldl (fun p e => handle env e p) p es.

(** *** Persistence *)

(** [persist(key, value)]: the call of [set_persisted] it makes, if any.
    [value] is [None] for [undefined] or [null]; the values the script
    passes are strings. *)
Definition persist (env : Env) (key : string) (value : option string)
  : option (string * string) :=
  match key, value with
  | EmptyString, _ => None
  | _, None => None
  | _, Some x =>
      match Js.trim x with
      | EmptyString => None
      | v => if invoke_available env then Some (key, v) else None
      end
  end.

(** The variables the selection callback of the grid maintains. *)
Record Selection := {
  currentPhotosFolder : string;
  lastSelectedFilePath : string
}.


(** Lines 173-178: [persistCurrentState], the writes made when the window
    goes away. *)
Definition persistCurrentState (env : Env) (cur : Selection)
    (currentMusicFolder : string) (selectedTrackPath : option string)
  : list (string * string) :=
  omap id [persist env "last_folder" (Some (currentPhotosFolder cur));
           persist env "last_music_folder" (Some currentMusicFolder);
           persist env "last_selected_file" (Some (lastSelectedFilePath cur));
           persist env "last_selected_track" selectedTrackPath].

(** Line 363: a value of the state store as the help panel shows it. *)
Definition helpValue (value : string) : string :=
  if (80 <? String.length value)%nat
  then Js.slice_to 77 value +:+ "..."
  else value.

End Main.

(** ** The webview reporting loads *)

Module EventLoop.

(** The installed handler runs on an error event. *)
Definition fire (env : Env) (path name : string) (st : St) : St :=
  match onerror st with
  | NoHandler => st
  | PreviewImgError => Main.imgOnError env path name st
  | PreviewSetPlaceholder => Main.setPlaceholder name st
  | PreviewVideoError =>
      Main.setVideoPlaceholder name "Video failed to load. Check path or format." st
  | ViewerImgError => Viewer.imgOnError env path name st
  | GridImgError => ThumbnailGrid.imgOnError env path st
  end.

(** The webview reports the outcome of the load in flight, if any. *)
Definition step (env : Env) (path name : string) (st : St) : St :=
  if loading st then
    match src st with
    | Some url =>
        if webview_loads env url then loaded url st
        else fire env path name (failed st)
    | None => failed st
    end
  else st.

Fixpoint run (fuel : nat) (env : Env) (path name : string) (st : St) : St :=
  match fuel with
  | O => st
  | S fuel' => run fuel' env path name (step env path name st)
  end.

(** Nothing is in flight any more. *)
Definition settled (st : St) : Prop := loading st = false.

End EventLoop.

(** ** scripts/splitters.js *)

Module Splitters.

(** Lengths are whole numbers of pixels. *)
Definition MIN_LEFT_WIDTH : Z := 200.
Definition MIN_SECTION_HEIGHT : Z := 60.

(** [onMove] of the vertical splitter: the width given to the left panel.
    [maxW] is [Math.floor(window.innerWidth * MAX_LEFT_WIDTH_PERCENT)], which
    the browser computes on the width of the window. *)
Definition onMoveVertical (maxW startW startX clientX : Z) : Z :=
  let dx := (clientX - startX)%Z in
  Z.min maxW (Z.max MIN_LEFT_WIDTH (startW + dx)).

(** [onMove] of a horizontal splitter: the heights handed to [setHeights]. *)
Definition onMoveHorizontal (startHeights : Z * Z) (startY clientY : Z) : Z * Z :=
  let dy := (clientY - startY)%Z in
  (Z.max MIN_SECTION_HEIGHT (fst startHeights + dy),
   Z.max MIN_SECTION_HEIGHT (snd startHeights - dy)).

(** The five horizontal splitters, by the sections they part. *)
Inductive Bar := Left1 | Left2 | Left3 | Right1 | Right2.

(** The minima each [setHeights] callback applies to the section above
    and to the section below. *)
Definition minima (b : Bar) : Z * Z :=
  match b with
  | Left1 => (MIN_SECTION_HEIGHT, MIN_SECTION_HEIGHT)
  | Left2 => (MIN_SECTION_HEIGHT, MIN_SECTION_HEIGHT)
  | Left3 => (MIN_SECTION_HEIGHT, 40%Z)
  | Right1 => (80%Z, 120%Z)
  | Right2 => (120%Z, 36%Z)
  end.

(** The heights the two sections get while the splitter [b] is dragged. *)
Definition drag (b : Bar) (startHeights : Z * Z) (startY clientY : Z) : Z * Z :=
  let '(a, c) := onMoveHorizontal startHeights startY clientY in
  (Z.max (fst (minima b)) a, Z.max (snd (minima b)) c).

End Splitters.

(** ** The playable list and the backend *)

Module PlayableList.

(** components/PlayableList.js, whose text follows the launch script in
    scripts/run-dev.ps1. Lines 331-333: the extensions of the playable
    list. *)
Definition AUDIO_EXT : gset string :=
  list_to_set ["mp3"; "wav"; "ogg"; "m4a"; "aac"; "flac"; "wma"; "opus"; "webm"].

(** [isAudioFile(name)]: [name.split('.').pop()?.toLowerCase() || ''] is
    looked up in the set. *)
Definition isAudioFile (name : string) : bool :=
  has AUDIO_EXT (Js.or_else (Js.toLowerCase <$> Js.pop (Js.split "." name)) "").

(** The files of the playable list: the filter and the sort of
    [loadPlayableList]. *)
Definition audioFiles (es : list Entry) : list Entry :=
  Js.sort (fun a b => Js.localeCompare_base (name a) (name b))
          (List.filter (fun e => negb (is_dir e) && isAudioFile (name e)) es).

End PlayableList.

Module Backend.

(** Modelled from the spec: the selection context the backend keeps for
    the viewer window (the Rust commands open_viewer_window,
    get_viewer_context, viewer_next and viewer_prev are not among the
    sources). *)
Record ViewerContext := { orderedPaths : list string; currentIndex : nat }.

(** Modelled from the spec: the two directions of [advance] (commands
    viewer_next and viewer_prev, missing from the sources). *)
Inductive Direction := Next | Previous.

(** Modelled from the spec: [openSecondaryContext(orderedPaths, startIndex)]
    snapshots the sequence and the start index (command open_viewer_window,
    missing from the sources). *)
Definition openSecondaryContext (orderedPaths : list string) (startIndex : nat)
  : ViewerContext :=
  {| orderedPaths := orderedPaths; currentIndex := startIndex |}.

(** Modelled from the spec: [getViewerContext() -> (orderedPaths,
    currentIndex)] (command get_viewer_context, missing from the sources). *)
Definition getViewerContext (ctx : ViewerContext) : list string * nat :=
  (orderedPaths ctx, currentIndex ctx).

(** Modelled from the spec: the index after [advance]; it wraps around at
    both ends (commands viewer_next and viewer_prev, missing from the
    sources). *)
Definition advanceIndex (d : Direction) (len i : nat) : nat :=
  match d with
  | Next => if decide (S i < len)%nat then S i else 0%nat
  | Previous => match i with O => (len - 1)%nat | S j => j end
  end.

(** Modelled from the spec: [advance(direction)] moves the private index
    of the context (commands viewer_next and viewer_prev, missing from the
    sources). *)
Definition advance (d : Direction) (ctx : ViewerContext) : ViewerContext :=
  {| orderedPaths := orderedPaths ctx;
     currentIndex := advanceIndex d (length (orderedPaths ctx)) (currentIndex ctx) |}.

(** Modelled from the spec: [currentEntry() -> (path, displayName)], the
    display name being the file name without its path (missing from the
    sources). *)
Definition currentEntry (ctx : ViewerContext) : option (string * string) :=
  (fun p => (p, Viewer.getName p)) <$> orderedPaths ctx !! currentIndex ctx.

(** Modelled from the spec: the answer of get_viewer_context as the viewer
    script receives it over the bridge, a pair of the sequence and a
    number (the command is missing from the sources). *)
Definition answer (ctx : ViewerContext) : Viewer.Context :=
  let '(ps, i) := getViewerContext ctx in
  Some (Some ps, Viewer.JNum (Z.of_nat i)).

End Backend.

(** ** The three display loaders, run to the end *)

Definition previewLoad (fuel : nat) (env : Env) (path name : string) : St :=
  EventLoop.run fuel env path name (Main.showPreview env path name).

Definition viewerLoad (fuel : nat) (env : Env) (path name : string) : option St :=
  (fun p => EventLoop.run fuel env path name (Viewer.content p))
    <$> Viewer.showImage env path name.

Definition gridLoad (fuel : nat) (env : Env) (file : Entry) : St :=
  EventLoop.run fuel env (path file) (name file) (thumbnail env file).

(** The extension sets by kind: those of the grid and that of the playable
    list. *)
Definition extSet (k : Kind) : gset string :=
  match k with
  | Image => IMAGE_EXT
  | Video => VIDEO_EXT
  | Audio => PlayableList.AUDIO_EXT
  | Heic => HEIC_EXT
  | Pdf => PDF_EXT
  end.

(** The kinds, among [ks], whose set contains the extension of [name]. *)
Definition kindsContaining (ks : list Kind) (name : string) : list Kind :=
  List.filter (fun k => has (extSet k) (getExt name)) ks.

Definition allKinds : list Kind := [Image; Video; Audio; Heic; Pdf].
Definition gridKinds : list Kind := [Image; Video; Heic; Pdf].

(** ** Scenarios, environments and measures used by the properties *)

(** A plain file of a listing. *)
Definition file (n p : string) : Entry := {| name := n; path := p; is_dir := false |}.

(** The four files of the scenario, at any paths. *)
Definition scenarioFolder (p1 p2 p3 p4 : string) : list Entry :=
  [file "b.jpg" p1; file "A.PNG" p2; file "c.mp4" p3; file "d.txt" p4].

(** A listing that succeeded with the entries [es]. *)
Definition listed (es : list Entry) : ListResult :=
  {| ok := true; entries := Some es; error := None |}.

(** The URL the asset protocol gives a path. *)
Definition assetUrl (p : string) : string := "asset://localhost/" +:+ p.

(** A webview inside Tauri in which nothing loads and the backend rejects
    every request. *)
Definition brokenEnv : Env :=
  {| convertFileSrc := Some (fun p => Some (assetUrl p));
     invoke_available := true;
     loads := fun _ => false;
     read_file_as_data_url := fun _ => None;
     get_video_thumbnail_data_url := fun _ => None;
     read_file_as_audio_url := fun _ => None;
     plays := fun _ => false |}.

(** A backend that decodes every track and a webview that plays it. *)
Definition musicEnv : Env :=
  {| convertFileSrc := Some (fun p => Some (assetUrl p));
     invoke_available := true;
     loads := fun _ => true;
     read_file_as_data_url := fun p => Some ("data:image;base64," +:+ p);
     get_video_thumbnail_data_url := fun p => Some ("data:image;base64," +:+ p);
     read_file_as_audio_url := fun p => Some ("data:audio;base64," +:+ p);
     plays := fun _ => true |}.

(** The listing service of the scenario: only C:\Photos exists. *)
Definition photosOnly (folder : string) : option ListResult :=
  if String.eqb folder "C:\Photos"
  then Some (listed (scenarioFolder "C:\Photos\b.jpg" "C:\Photos\A.PNG"
                                    "C:\Photos\c.mp4" "C:\Photos\d.txt"))
  else None.

(** How a load ended: what the pane shows, how many backend requests were
    made, and nothing is in flight. *)
Definition ends (st : St) (v : View) (requests : nat) : Prop :=
  view st = v /\ invocations st = requests /\ loading st = false.

(** The pane shows the fixed text [t] and nothing else was ever done. *)
Definition only_placeholder (t : string) (st : St) : Prop :=
  log st = [Placeholder t] /\ view st = Text t /\ src st = None /\ loading st = false.

(** The text shown for a kind that is never loaded, in the grid and in the
    two panes. *)
Definition fixedText (inGrid : bool) (k : Kind) : string :=
  match k with
  | Heic => "HEIC"
  | Pdf => if inGrid then "PDF" else "PDF cannot be displayed."
  | _ => ""
  end.

(** The text of the preview pane for a video that failed to load. *)
Definition videoFailedText : string := "Video failed to load. Check path or format.".

(** The element once the asset reference [url] of [path] is assigned and
    the handler [h] is installed. *)
Definition assetAssigned (path url : string) (h : Handler) : St :=
  set_onerror h (set_src url (emit (AssetRef path) fresh)).

(** The decode request that follows the failure of the asset. *)
Definition decodeRequested (path url : string) (h : Handler) : St :=
  emit (Invoke "read_file_as_data_url" path) (failed (assetAssigned path url h)).

(** An element of the viewer or of the grid that is loading the decoded
    data [d] with its first handler still installed. *)
Definition retrying (d : string) (st : St) : Prop :=
  src st = Some d /\ loading st = true /\
  (onerror st = ViewerImgError \/ onerror st = GridImgError).

(** The backend command of the audio player. *)
Definition audioCmd : string := "read_file_as_audio_url".

(** Every [play()] in the log comes after a request for a playable
    representation. *)
Definition played_after_decode (l : list Effect) : Prop :=
  forall l1 l2, l = (l1 ++ PlayMedia :: l2)%list ->
                exists p, Invoke audioCmd p ∈ l1.

(** What holds of the player after any sequence of events. *)
Record player_ok (env : Env) (p : Main.Player) : Prop := {
  no_asset : forall e, e ∈ Main.plog p -> is_asset_ref e = false;
  src_decoded : forall u, Main.audio_src p = Some u ->
    exists track, read_file_as_audio_url env track = Some u /\
                  Invoke audioCmd track ∈ Main.plog p;
  play_decoded : played_after_decode (Main.plog p)
}.

(** A context answer that carries a non-empty sequence [ps] and the index
    value [v]. *)
Definition contextOf (ps : list string) (v : Viewer.JsVal) : option Viewer.Context :=
  Some (Some (Some ps, v)).

(** ** Measures used by the further properties *)

(** The order of the grid: [a] does not come after [b] in the collation. *)
Definition in_order (a b : Entry) : Prop :=
  Js.localeCompare_base (name a) (name b) <> Gt.

(** The entries the collation cannot tell from [k]: their names differ at
    most by case and by characters without weight. *)
Definition ties_with (k : Entry) (e : Entry) : bool :=
  match Js.localeCompare_base (name e) (name k) with Eq => true | _ => false end.

(** The test of line 76. *)
Definition shownInGrid (e : Entry) : bool := negb (is_dir e) && isMediaFile (name e).

(** A webview inside Tauri in which no source loads although the backend
    answers every request. *)
Definition corruptEnv : Env :=
  {| convertFileSrc := Some (fun p => Some (assetUrl p));
     invoke_available := true;
     loads := fun _ => false;
     read_file_as_data_url := fun p => Some ("data:image;base64," +:+ p);
     get_video_thumbnail_data_url := fun p => Some ("data:image;base64," +:+ p);
     read_file_as_audio_url := fun p => Some ("data:audio;base64," +:+ p);
     plays := fun _ => false |}.

(** A Tauri bridge whose [convertFileSrc] throws. *)
Definition throwingEnv : Env :=
  {| convertFileSrc := Some (fun _ => None);
     invoke_available := true;
     loads := fun _ => true;
     read_file_as_data_url := fun p => Some ("data:image;base64," +:+ p);
     get_video_thumbnail_data_url := fun p => Some ("data:image;base64," +:+ p);
     read_file_as_audio_url := fun p => Some ("data:audio;base64," +:+ p);
     plays := fun _ => true |}.

(** A handler that only writes a text, or none at all. *)
Definition closing (h : Handler) : Prop :=
  h = NoHandler \/ h = PreviewSetPlaceholder \/ h = PreviewVideoError.

(** The string [s] holds no character [c]. *)
Definition lacks (c : ascii) (s : string) : Prop := Js.lastIndexOf c s = None.

(** A folder path that is a bare drive, as C: is. *)
Definition isDrive (folder : string) : bool :=
  (String.length folder =? 2)%nat && bool_decide (String.get 1 folder = Some ":"%char).

(** What holds of the slideshow whatever the user does: the interval is
    a whole number of seconds between 1 and 3600, a running timer ticks at
    the configured interval, and the button names the action that is
    possible. *)
Record slideshow_ok (s : Viewer.Slideshow) : Prop := {
  interval_range : (1000 <= Viewer.slideshowIntervalMs s <= 3600000)%Z;
  interval_seconds : (Viewer.slideshowIntervalMs s mod 1000 = 0)%Z;
  timer_interval : forall t, Viewer.slideshowTimer s = Some t ->
                             t = Viewer.slideshowIntervalMs s;
  button_running : forall t, Viewer.slideshowTimer s = Some t ->
                             Viewer.slideshowButton s = Some "Slideshow OFF";
  button_stopped : Viewer.slideshowTimer s = None ->
                   Viewer.slideshowButton s = None \/
                   Viewer.slideshowButton s = Some "Slideshow ON"
}.

(** * Properties *)

(** ** Classification *)

Lemma has_list_to_set (l : list string) (x : string) :
  has (list_to_set l) x = Js.includes l x.
Proof.
  unfold has, Js.includes. apply bool_decide_ext. apply elem_of_list_to_set.
Qed.

Lemma viewer_getExt name : Viewer.getExt name = getExt name.
Proof. reflexivity. Qed.

Lemma main_getExt name : Main.getExt name = getExt name.
Proof. reflexivity. Qed.

Lemma has_pdf x : has PDF_EXT x = String.eqb x "pdf".
Proof.
  unfold PDF_EXT. rewrite has_list_to_set. unfold Js.includes.
  destruct (String.eqb_spec x "pdf") as [Heq|Hne].
  - subst x. apply bool_decide_eq_true. now apply list_elem_of_singleton.
  - apply bool_decide_eq_false. intros Hin.
    now apply list_elem_of_singleton in Hin.
Qed.

(** The three scripts classify alike. *)
Lemma isHeic_agree name :
  Viewer.isHeic name = isHeic name /\ Main.isHeic name = isHeic name.
Proof.
  unfold Viewer.isHeic, Main.isHeic, isHeic, HEIC_EXT.
  now rewrite has_list_to_set.
Qed.

Lemma isVideo_agree name :
  Viewer.isVideo name = isVideo name /\ Main.isVideo name = isVideo name.
Proof.
  unfold Viewer.isVideo, Main.isVideo, isVideo, VIDEO_EXT.
  now rewrite has_list_to_set.
Qed.

Lemma isPdf_agree name :
  Viewer.isPdf name = isPdf name /\ Main.isPdf name = isPdf name.
Proof.
  unfold Viewer.isPdf, Main.isPdf, isPdf. now rewrite has_pdf.
Qed.

(** Membership in an extension set, spelled out. *)
Lemma has_true (l : list string) x : has (list_to_set l) x = true <-> x ∈ l.
Proof.
  unfold has. rewrite bool_decide_eq_true. apply elem_of_list_to_set.
Qed.

Lemma grid_sets_disjoint x :
  (has IMAGE_EXT x = true -> has VIDEO_EXT x = false /\ has HEIC_EXT x = false /\ has PDF_EXT x = false)
  /\ (has VIDEO_EXT x = true -> has HEIC_EXT x = false /\ has PDF_EXT x = false)
  /\ (has HEIC_EXT x = true -> has PDF_EXT x = false).
Proof.
  unfold IMAGE_EXT, VIDEO_EXT, HEIC_EXT, PDF_EXT.
  split; [|split]; intros Hx; apply has_true in Hx;
    repeat (apply elem_of_cons in Hx as [Hx | Hx];
            [subst x; vm_compute; repeat split; reflexivity|]);
    inversion Hx.
Qed.

(** What [kindOf] answers, read back on the predicates. *)
Lemma kindOf_Some name k :
  kindOf name = Some k ->
  isMediaFile name = true /\
  match k with
  | Heic => isHeic name = true
  | Pdf => isHeic name = false /\ isPdf name = true
  | Video => isHeic name = false /\ isPdf name = false /\ isVideo name = true
  | Image => isHeic name = false /\ isPdf name = false /\ isVideo name = false
  | Audio => False
  end.
Proof.
  unfold kindOf.
  destruct (isMediaFile name); simpl; [|discriminate].
  destruct (isHeic name); [intros [= <-]; auto|].
  destruct (isPdf name); [intros [= <-]; auto|].
  destruct (isVideo name); intros [= <-]; auto.
Qed.

Lemma kindOf_Image_has name :
  kindOf name = Some Image -> has IMAGE_EXT (getExt name) = true.
Proof.
  intros H. apply kindOf_Some in H as (Hm & Hh & Hp & Hv).
  unfold isMediaFile, isHeic, isPdf, isVideo in *. simpl in Hm.
  rewrite Hh, Hp, Hv in Hm. now rewrite !orb_false_r in Hm.
Qed.

(** ** Sorting keeps the elements *)

Section SortFacts.
Context {A : Type} (cmp : A -> A -> comparison).

Lemma insert_stable_perm x l : Js.insert_stable cmp x l ≡ₚ x :: l.
Proof.
  induction l as [|y l IH]; simpl; [reflexivity|].
  destruct (cmp x y); try reflexivity.
  rewrite IH. apply Permutation_swap.
Qed.

Lemma sort_perm l : Js.sort cmp l ≡ₚ l.
Proof.
  induction l as [|x l IH]; simpl; [reflexivity|].
  rewrite insert_stable_perm. now rewrite IH.
Qed.

Lemma sort_length l : length (Js.sort cmp l) = length l.
Proof. apply Permutation_length, sort_perm. Qed.

Lemma sort_elem x l : x ∈ Js.sort cmp l <-> x ∈ l.
Proof. now rewrite sort_perm. Qed.
End SortFacts.

(** The entries of the sequence are the media files of the listing. *)
Lemma mediaFiles_elem e es :
  e ∈ mediaFiles es <-> e ∈ es /\ is_dir e = false /\ isMediaFile (name e) = true.
Proof.
  unfold mediaFiles. rewrite sort_elem, !list_elem_of_In, filter_In.
  rewrite andb_true_iff, negb_true_iff. tauto.
Qed.

(** ** C9: one kind per entry *)

Lemma webm_is_video_and_audio :
  kindsContaining allKinds "clip.webm" = [Video; Audio].
Proof. vm_compute. reflexivity. Qed.

(** C9, as stated, fails: the extension webm is in the Video set of the
    grid and in the Audio set of the playable list, so it is not true that
    for every file name at most one of the five sets contains its
    extension. *)
Lemma C9_five_sets_overlap :
  ~ (forall name : string, (length (kindsContaining allKinds name) <= 1)%nat).
Proof.
  intros H. specialize (H "clip.webm").
  rewrite webm_is_video_and_audio in H. simpl in H. lia.
Qed.

(** The facts about the four sets of the grid and their overlap with the
    set of the playable list. *)
Lemma grid_kinds_facts :
  (forall name, (length (kindsContaining gridKinds name) <= 1)%nat) /\
  (forall es e, e ∈ mediaFiles es ->
     exists k, kindOf (name e) = Some k /\ k <> Audio /\
               kindsContaining gridKinds (name e) = [k]) /\
  (forall es e, kindsContaining gridKinds (name e) = [] -> e ∉ mediaFiles es) /\
  (forall x k, k <> Audio -> has (extSet Audio) x = true ->
     has (extSet k) x = true -> x = "webm" /\ k = Video).
Proof.
  assert (Hone : forall name k, kindOf name = Some k ->
            k <> Audio /\ kindsContaining gridKinds name = [k]).
  { intros name k Hk. pose proof (kindOf_Some _ _ Hk) as [Hm Hrest].
    pose proof (grid_sets_disjoint (getExt name)) as (Hi & Hv & Hh).
    unfold kindsContaining, gridKinds, isMediaFile, isHeic, isPdf, isVideo in *.
    simpl in *.
    destruct k; try contradiction; split; try discriminate.
    - destruct Hrest as (H1 & H2 & H3). rewrite H1, H2, H3 in *.
      rewrite !orb_false_r in Hm. now rewrite Hm.
    - destruct Hrest as (H1 & H2 & H3). rewrite H1, H2, H3.
      destruct (has IMAGE_EXT (getExt name)) eqn:E; [|reflexivity].
      destruct (Hi eq_refl) as (? & _). congruence.
    - rewrite Hrest. pose proof (Hh Hrest) as Hp. rewrite Hp.
      destruct (has IMAGE_EXT (getExt name)) eqn:E1;
        [destruct (Hi eq_refl) as (_ & ? & _); congruence|].
      destruct (has VIDEO_EXT (getExt name)) eqn:E2;
        [destruct (Hv eq_refl) as (? & _); congruence|].
      reflexivity.
    - destruct Hrest as (H1 & H2). rewrite H1, H2.
      destruct (has IMAGE_EXT (getExt name)) eqn:E1;
        [destruct (Hi eq_refl) as (_ & _ & ?); congruence|].
      destruct (has VIDEO_EXT (getExt name)) eqn:E2;
        [destruct (Hv eq_refl) as (_ & ?); congruence|].
      reflexivity. }
  assert (Hnone : forall name, kindOf name = None ->
            kindsContaining gridKinds name = []).
  { intros name. unfold kindOf, kindsContaining, gridKinds, isMediaFile.
    simpl.
    destruct (has IMAGE_EXT (getExt name)), (has VIDEO_EXT (getExt name)),
      (has HEIC_EXT (getExt name)) eqn:Eh, (has PDF_EXT (getExt name)) eqn:Ep;
      simpl; try reflexivity; unfold isHeic, isPdf, isVideo;
      rewrite ?Eh, ?Ep; try discriminate;
      destruct (has VIDEO_EXT (getExt name)); discriminate. }
  split; [|split; [|split]].
  - intros name. destruct (kindOf name) as [k|] eqn:Hk.
    + destruct (Hone _ _ Hk) as [_ ->]. simpl. lia.
    + rewrite (Hnone _ Hk). simpl. lia.
  - intros es e He. apply mediaFiles_elem in He as (_ & _ & Hm).
    destruct (kindOf (name e)) as [k|] eqn:Hk.
    + exists k. destruct (Hone _ _ Hk). auto.
    + unfold kindOf in Hk. rewrite Hm in Hk. simpl in Hk.
      destruct (isHeic (name e)), (isPdf (name e)), (isVideo (name e));
        discriminate.
  - intros es e Hnil He. apply mediaFiles_elem in He as (_ & _ & Hm).
    destruct (kindOf (name e)) as [k|] eqn:Hk.
    + destruct (Hone _ _ Hk) as [_ Heq]. congruence.
    + unfold kindOf in Hk. rewrite Hm in Hk. simpl in Hk.
      destruct (isHeic (name e)), (isPdf (name e)), (isVideo (name e));
        discriminate.
  - intros x k Hk Ha Hx. simpl in Ha. unfold PlayableList.AUDIO_EXT in Ha.
    apply has_true in Ha.
    repeat (apply elem_of_cons in Ha as [Ha | Ha];
            [subst x; destruct k; try contradiction; vm_compute in Hx;
             first [discriminate | split; reflexivity]|]).
    inversion Ha.
Qed.

(** The playable list looks the same extension up as the grid does. *)
Lemma isAudioFile_ext name :
  PlayableList.isAudioFile name = has PlayableList.AUDIO_EXT (getExt name).
Proof.
  unfold PlayableList.isAudioFile, getExt.
  destruct (Js.pop (Js.split "." name)) as [[|c e]|]; reflexivity.
Qed.

Lemma audioFiles_elem e es :
  e ∈ PlayableList.audioFiles es <->
  e ∈ es /\ is_dir e = false /\ PlayableList.isAudioFile (name e) = true.
Proof.
  unfold PlayableList.audioFiles. rewrite sort_elem, !list_elem_of_In, filter_In.
  rewrite andb_true_iff, negb_true_iff. tauto.
Qed.

(** C9, amended: the four sets the grid classifies with are pairwise
    disjoint, so a file name is in at most one of them and every entry of
    the grid sequence has exactly one kind, never Audio; a file is in the
    grid sequence only when one of the four sets contains its extension;
    the Audio set of the playable list meets the others in webm alone,
    which it shares with Video; the playable list classifies by the same
    extension, and a file whose extension is in none of the five sets is
    in neither sequence. *)
Theorem C9_grid_kinds_exclusive :
  (forall name, (length (kindsContaining gridKinds name) <= 1)%nat) /\
  (forall es e, e ∈ mediaFiles es ->
     exists k, kindOf (name e) = Some k /\ k <> Audio /\
               kindsContaining gridKinds (name e) = [k]) /\
  (forall es e, kindsContaining gridKinds (name e) = [] -> e ∉ mediaFiles es) /\
  (forall x k, k <> Audio -> has (extSet Audio) x = true ->
     has (extSet k) x = true -> x = "webm" /\ k = Video) /\
  (forall name, PlayableList.isAudioFile name = has (extSet Audio) (getExt name)) /\
  (forall es e, kindsContaining allKinds (name e) = [] ->
     (e ∉ mediaFiles es) /\ (e ∉ PlayableList.audioFiles es)).
Proof.
  destruct grid_kinds_facts as (H1 & H2 & H3 & H4).
  split; [exact H1|]. split; [exact H2|]. split; [exact H3|]. split; [exact H4|].
  split; [exact isAudioFile_ext|].
  intros es e Hnone.
  assert (Hall : forall k, has (extSet k) (getExt (name e)) = false).
  { intros k. destruct (has (extSet k) (getExt (name e))) eqn:Hk; [|reflexivity].
    exfalso.
    assert (Hin : In k (kindsContaining allKinds (name e))).
    { unfold kindsContaining. apply filter_In. split; [|exact Hk].
      unfold allKinds. destruct k; simpl; tauto. }
    now rewrite Hnone in Hin. }
  split.
  - apply H3. unfold kindsContaining, gridKinds. cbn [List.filter].
    now rewrite (Hall Image), (Hall Video), (Hall Heic), (Hall Pdf).
  - intros Hin. apply audioFiles_elem in Hin as (_ & _ & Ha).
    rewrite isAudioFile_ext in Ha. specialize (Hall Audio). simpl in Hall. congruence.
Qed.

(** ** C1: the scenario folder *)

(** C1: whatever the order in which the listing reports b.jpg, A.PNG, c.mp4
    and d.txt, the sequence is A.PNG (Image), b.jpg (Image), c.mp4 (Video):
    d.txt is left out and A.PNG comes before b.jpg. *)
Theorem C1_scenario_sequence (p1 p2 p3 p4 : string) (es : list Entry) :
  es ≡ₚ scenarioFolder p1 p2 p3 p4 ->
  map (fun e => (name e, path e, kindOf (name e))) (mediaFiles es)
  = [("A.PNG", p2, Some Image); ("b.jpg", p1, Some Image); ("c.mp4", p3, Some Video)].
Proof.
  intros H. symmetry in H. apply permutations_Permutation in H.
  unfold scenarioFolder in H. cbn in H.
  repeat (apply elem_of_cons in H as [H | H];
          [subst es; vm_compute; reflexivity|]).
  inversion H.
Qed.

Lemma C1_scenario_sequence_witness :
  map (fun e => (name e, path e, kindOf (name e)))
      (mediaFiles (scenarioFolder "C:\Photos\b.jpg" "C:\Photos\A.PNG"
                                  "C:\Photos\c.mp4" "C:\Photos\d.txt"))
  = [("A.PNG", "C:\Photos\A.PNG", Some Image);
     ("b.jpg", "C:\Photos\b.jpg", Some Image);
     ("c.mp4", "C:\Photos\c.mp4", Some Video)].
Proof.
  apply (C1_scenario_sequence "C:\Photos\b.jpg" "C:\Photos\A.PNG"
           "C:\Photos\c.mp4" "C:\Photos\d.txt").
  reflexivity.
Defined.

(** ** C4: restoring a file that is gone *)





(** ** The event loop *)

Lemma run_settled fuel env path name st :
  loading st = false -> EventLoop.run fuel env path name st = st.
Proof.
  induction fuel as [|fuel IH]; intros H; simpl; [reflexivity|].
  unfold EventLoop.step. rewrite H. now apply IH.
Qed.

Lemma run_step fuel env path name st :
  EventLoop.run (S fuel) env path name st
  = EventLoop.run fuel env path name (EventLoop.step env path name st).
Proof. reflexivity. Qed.

Lemma kind_flags name k :
  kindOf name = Some k ->
  Main.isHeic name = isHeic name /\ Main.isPdf name = isPdf name /\
  Main.isVideo name = isVideo name /\
  Viewer.isHeic name = isHeic name /\ Viewer.isPdf name = isPdf name /\
  Viewer.isVideo name = isVideo name /\ or_str name "No image" = name.
Proof.
  intros Hk.
  destruct (isHeic_agree name) as [-> ->].
  destruct (isPdf_agree name) as [-> ->].
  destruct (isVideo_agree name) as [-> ->].
  repeat split. destruct name; [discriminate Hk|reflexivity].
Qed.

(** ** C8: HEIC and PDF are never loaded *)

(** C8: for a file of kind Heic or Pdf the preview pane, the viewer and the
    grid render a fixed text at once, whatever the environment and however
    long one waits: the log holds the placeholder alone (no asset
    reference, no backend request, no source assigned). *)
Theorem C8_heic_pdf_placeholder_only
    (env : Env) (path name : string) (k : Kind) (fuel : nat) :
  k = Heic \/ k = Pdf ->
  kindOf name = Some k ->
  only_placeholder (fixedText false k) (previewLoad fuel env path name) /\
  (exists st, viewerLoad fuel env path name = Some st /\
              only_placeholder (fixedText false k) st) /\
  only_placeholder (fixedText true k) (gridLoad fuel env (file name path)).
Proof.
  intros Hhp Hk.
  destruct (kind_flags _ _ Hk) as (M1 & M2 & M3 & V1 & V2 & V3 & _).
  pose proof (kindOf_Some _ _ Hk) as [_ Hflags].
  unfold previewLoad, viewerLoad, gridLoad, Main.showPreview, Viewer.showImage,
    thumbnail.
  rewrite M1, M2, V1, V2. unfold file.
  cbn [ThumbnailGrid.name ThumbnailGrid.path].
  destruct Hhp as [-> | ->].
  - rewrite Hflags. simpl.
    rewrite !run_settled by reflexivity.
    repeat split. eexists. split; [reflexivity|]. repeat split.
  - destruct Hflags as [-> ->]. simpl.
    rewrite !run_settled by reflexivity.
    repeat split. eexists. split; [reflexivity|]. repeat split.
Qed.

Lemma C8_heic_pdf_placeholder_only_witness :
  only_placeholder "PDF cannot be displayed."
    (previewLoad 3 brokenEnv "C:\Photos\scan.PDF" "scan.PDF") /\
  (exists st, viewerLoad 3 brokenEnv "C:\Photos\scan.PDF" "scan.PDF" = Some st /\
              only_placeholder "PDF cannot be displayed." st) /\
  only_placeholder "PDF" (gridLoad 3 brokenEnv (file "scan.PDF" "C:\Photos\scan.PDF")).
Proof.
  apply (C8_heic_pdf_placeholder_only brokenEnv "C:\Photos\scan.PDF" "scan.PDF" Pdf 3).
  - right. reflexivity.
  - vm_compute. reflexivity.
Defined.

(** ** C2: the fallback chain of an image *)

Section ImageChain.
Variables (env : Env) (path name url : string) (conv : string -> option string).
Hypothesis Hkind : kindOf name = Some Image.
Hypothesis Hconv : convertFileSrc env = Some conv.
Hypothesis Hurl : conv path = Some url.
Hypothesis Hinvoke : invoke_available env = true.

Lemma image_flags :
  Main.isHeic name = false /\ Main.isPdf name = false /\ Main.isVideo name = false /\
  Viewer.isHeic name = false /\ Viewer.isPdf name = false /\
  Viewer.isVideo name = false /\
  isHeic name = false /\ isPdf name = false /\ isVideo name = false /\
  or_str name "No image" = name.
Proof.
  destruct (kind_flags _ _ Hkind) as (-> & -> & -> & -> & -> & -> & ->).
  destruct (kindOf_Some _ _ Hkind) as (_ & -> & -> & ->). repeat split.
Qed.

Lemma preview_start : Main.showPreview env path name = assetAssigned path url PreviewImgError.
Proof.
  destruct image_flags as (H1 & H2 & H3 & _).
  unfold Main.showPreview. now rewrite H1, H2, H3, Hconv, Hurl.
Qed.

Lemma viewer_start :
  Viewer.showImage env path name
  = Some {| Viewer.content := assetAssigned path url ViewerImgError; Viewer.filename := name |}.
Proof.
  destruct image_flags as (_ & _ & _ & H1 & H2 & H3 & _).
  unfold Viewer.showImage. now rewrite H1, H2, H3, Hconv, Hurl.
Qed.

Lemma grid_start : thumbnail env (file name path) = assetAssigned path url GridImgError.
Proof.
  destruct image_flags as (_ & _ & _ & _ & _ & _ & H1 & H2 & H3 & _).
  unfold thumbnail. simpl. now rewrite H1, H2, H3, Hconv, Hurl.
Qed.

(** The asset loads: it is shown and nothing else happens. *)
Lemma asset_shown h fuel :
  webview_loads env url = true ->
  EventLoop.run (S fuel) env path name (assetAssigned path url h) = loaded url (assetAssigned path url h).
Proof.
  intros Hl. rewrite run_step. unfold EventLoop.step. simpl. rewrite Hl.
  now apply run_settled.
Qed.

(** The asset fails: the handler of each script runs once. *)
Lemma asset_failed h :
  webview_loads env url = false ->
  EventLoop.step env path name (assetAssigned path url h)
  = EventLoop.fire env path name (failed (assetAssigned path url h)).
Proof. intros Hl. unfold EventLoop.step. simpl. now rewrite Hl. Qed.

Lemma preview_rejected fuel :
  webview_loads env url = false -> read_file_as_data_url env path = None ->
  previewLoad (S fuel) env path name
  = show_text name (decodeRequested path url PreviewImgError).
Proof.
  intros Hl Hr. unfold previewLoad. rewrite preview_start, run_step, asset_failed by done.
  unfold EventLoop.fire, Main.imgOnError. simpl. rewrite Hinvoke, Hr. simpl.
  now apply run_settled.
Qed.

Lemma viewer_rejected fuel :
  webview_loads env url = false -> read_file_as_data_url env path = None ->
  viewerLoad (S fuel) env path name
  = Some (show_text name (decodeRequested path url ViewerImgError)).
Proof.
  intros Hl Hr. destruct image_flags as (_ & _ & _ & _ & _ & _ & _ & _ & _ & Hn).
  unfold viewerLoad. rewrite viewer_start. simpl fmap. f_equal.
  cbn [Viewer.content]. rewrite asset_failed by done.
  unfold EventLoop.fire, Viewer.imgOnError. simpl. rewrite Hinvoke, Hr. simpl.
  rewrite Hn. now apply run_settled.
Qed.

Lemma grid_rejected fuel :
  webview_loads env url = false -> read_file_as_data_url env path = None ->
  gridLoad (S fuel) env (file name path) = hide (decodeRequested path url GridImgError).
Proof.
  intros Hl Hr. unfold gridLoad. rewrite grid_start. simpl.
  unfold EventLoop.step. simpl. rewrite Hl.
  unfold EventLoop.fire, imgOnError. simpl. rewrite Hinvoke, Hr.
  now apply run_settled.
Qed.

(** The backend answers [d]: it becomes the source of the element. *)
Lemma preview_decoded d :
  webview_loads env url = false -> read_file_as_data_url env path = Some d ->
  previewLoad 1 env path name
  = set_onerror PreviewSetPlaceholder (set_src d (decodeRequested path url PreviewImgError)).
Proof.
  intros Hl Hr. unfold previewLoad. rewrite preview_start, run_step, asset_failed by done.
  unfold EventLoop.fire, Main.imgOnError. simpl. now rewrite Hinvoke, Hr.
Qed.

Lemma viewer_decoded d :
  webview_loads env url = false -> read_file_as_data_url env path = Some d ->
  viewerLoad 1 env path name = Some (set_src d (decodeRequested path url ViewerImgError)).
Proof.
  intros Hl Hr. unfold viewerLoad. rewrite viewer_start. simpl fmap. f_equal.
  cbn [Viewer.content]. rewrite asset_failed by done.
  unfold EventLoop.fire, Viewer.imgOnError. simpl. now rewrite Hinvoke, Hr.
Qed.

Lemma grid_decoded d :
  webview_loads env url = false -> read_file_as_data_url env path = Some d ->
  gridLoad 1 env (file name path) = set_src d (decodeRequested path url GridImgError).
Proof.
  intros Hl Hr. unfold gridLoad. rewrite grid_start. simpl.
  unfold EventLoop.step. simpl. rewrite Hl.
  unfold EventLoop.fire, imgOnError. simpl. now rewrite Hinvoke, Hr.
Qed.

(** In the preview pane the decoded data gets the plain placeholder as
    its handler, so its failure ends the chain. *)
Lemma preview_data_failed d fuel :
  webview_loads env url = false -> read_file_as_data_url env path = Some d ->
  webview_loads env d = false ->
  previewLoad (S (S fuel)) env path name
  = show_text name
      (failed (set_onerror PreviewSetPlaceholder
                 (set_src d (decodeRequested path url PreviewImgError)))).
Proof.
  intros Hl Hr Hd. unfold previewLoad.
  change (EventLoop.run (S (S fuel)) env path name (Main.showPreview env path name))
    with (EventLoop.run (S fuel) env path name
            (EventLoop.run 1 env path name (Main.showPreview env path name))).
  fold (previewLoad 1 env path name). rewrite (preview_decoded d) by done.
  rewrite run_step. unfold EventLoop.step. simpl. rewrite Hd. simpl.
  now apply run_settled.
Qed.

End ImageChain.

(** In the viewer and in the grid the handler stays installed when the
    decoded data becomes the source: if that data fails to load as well,
    every error event asks the backend again. *)
Section Retry.
Variables (env : Env) (path name d : string).
Hypothesis Hinvoke : invoke_available env = true.
Hypothesis Hread : read_file_as_data_url env path = Some d.
Hypothesis Hfails : webview_loads env d = false.

Lemma invocations_emit_invoke st cmd p :
  invocations (emit (Invoke cmd p) st) = S (invocations st).
Proof.
  unfold invocations, emit. simpl. rewrite List.filter_app, length_app. simpl. lia.
Qed.

Lemma invocations_set_src st u : invocations (set_src u st) = invocations st.
Proof.
  unfold invocations, set_src. simpl. rewrite List.filter_app, length_app. simpl. lia.
Qed.

Lemma retry_step st :
  retrying d st ->
  retrying d (EventLoop.step env path name st) /\
  invocations (EventLoop.step env path name st) = S (invocations st).
Proof.
  intros (Hs & Hl & Hh). unfold EventLoop.step. rewrite Hl, Hs, Hfails.
  unfold EventLoop.fire. cbn [onerror failed].
  destruct Hh as [Hh | Hh]; rewrite Hh; unfold Viewer.imgOnError, imgOnError;
    rewrite Hinvoke, Hread; simpl negb; cbv iota;
    rewrite invocations_set_src, invocations_emit_invoke;
    (split; [|reflexivity]); repeat split; simpl; auto.
Qed.

Lemma retry_run fuel st :
  retrying d st ->
  invocations (EventLoop.run fuel env path name st) = (fuel + invocations st)%nat.
Proof.
  revert st. induction fuel as [|fuel IH]; intros st Hst; [reflexivity|].
  rewrite run_step. destruct (retry_step st Hst) as [Hst' Hn].
  rewrite (IH _ Hst'), Hn. lia.
Qed.
End Retry.

(** A file whose asset reference fails and whose decoded data fails too is
    requested from the backend once per error event by the viewer and by the
    grid, without end. *)
Lemma viewer_and_grid_retry_without_bound
    (env : Env) (path name url d : string) (conv : string -> option string)
    (fuel : nat) :
  kindOf name = Some Image ->
  convertFileSrc env = Some conv -> conv path = Some url ->
  invoke_available env = true ->
  webview_loads env url = false ->
  read_file_as_data_url env path = Some d ->
  webview_loads env d = false ->
  (invocations <$> viewerLoad (S fuel) env path name) = Some (S fuel) /\
  invocations (gridLoad (S fuel) env (file name path)) = S fuel.
Proof.
  intros Hk Hc Hu Hi Hl Hr Hd.
  pose proof (viewer_decoded env path name url conv Hk Hc Hu Hi d Hl Hr) as Hv.
  pose proof (grid_decoded env path name url conv Hk Hc Hu Hi d Hl Hr) as Hg.
  unfold viewerLoad, gridLoad in *.
  rewrite (viewer_start env path name url conv Hk Hc Hu) in *.
  rewrite (grid_start env path name url conv Hk Hc Hu) in *.
  cbn [fmap option_fmap option_map Viewer.content ThumbnailGrid.path
       ThumbnailGrid.name file EventLoop.run] in Hv, Hg.
  cbn [fmap option_fmap option_map Viewer.content ThumbnailGrid.path
       ThumbnailGrid.name file].
  injection Hv as Hv.
  assert (Hcount : forall h, h = ViewerImgError \/ h = GridImgError ->
            EventLoop.step env path name (assetAssigned path url h)
            = set_src d (decodeRequested path url h) ->
            invocations (EventLoop.run (S fuel) env path name (assetAssigned path url h))
            = S fuel).
  { intros h Hh Hstep. rewrite run_step, Hstep.
    rewrite (retry_run env path name d Hi Hr Hd); [|repeat split; auto].
    unfold decodeRequested.
    rewrite invocations_set_src, invocations_emit_invoke. unfold invocations. simpl. lia. }
  split; [f_equal|]; apply Hcount; auto.
Qed.

(** C2, as stated, fails in the grid: the asset reference of a.jpg fails,
    the backend rejects the decode request, and the cell never shows a
    textual placeholder; the image is made invisible instead. *)
Lemma C2_grid_hides_image :
  kindOf "a.jpg" = Some Image /\
  webview_loads brokenEnv (assetUrl "C:\Photos\a.jpg") = false /\
  read_file_as_data_url brokenEnv "C:\Photos\a.jpg" = None /\
  (forall fuel t,
     view (gridLoad fuel brokenEnv (file "a.jpg" "C:\Photos\a.jpg")) <> Text t) /\
  ends (gridLoad 2 brokenEnv (file "a.jpg" "C:\Photos\a.jpg")) Hidden 1.
Proof.
  split; [vm_compute; reflexivity|].
  split; [reflexivity|]. split; [reflexivity|]. split.
  - intros [|fuel] t; [vm_compute; discriminate|].
    assert (Hk : kindOf "a.jpg" = Some Image) by (vm_compute; reflexivity).
    rewrite (grid_rejected brokenEnv "C:\Photos\a.jpg" "a.jpg"
               (assetUrl "C:\Photos\a.jpg") (fun p => Some (assetUrl p))
               Hk eq_refl eq_refl eq_refl fuel eq_refl eq_refl).
    discriminate.
  - vm_compute. auto.
Qed.

(** C2, amended: for a file of kind Image, inside Tauri, the preview pane,
    the viewer and the grid each assign the direct asset reference first.
    When it loads it is shown and the backend is never asked. When it fails
    to load, the request for the data representation is what each script
    does next. When that request is rejected, the preview pane and the
    viewer show the file name as a textual placeholder, the grid hides the
    image, and in all three exactly one request was made and nothing is in
    flight, however long one waits. In the preview pane a data
    representation that fails to load ends in the placeholder too, after
    that single request. *)
Theorem C2_image_chain_by_site
    (env : Env) (path name url : string) (conv : string -> option string)
    (fuel : nat) :
  kindOf name = Some Image ->
  convertFileSrc env = Some conv -> conv path = Some url ->
  invoke_available env = true ->
  let first := [AssetRef path; SetSrc url] in
  let request := (first ++ [Invoke "read_file_as_data_url" path])%list in
  (log (previewLoad 0 env path name) = first /\
   (log <$> viewerLoad 0 env path name) = Some first /\
   log (gridLoad 0 env (file name path)) = first) /\
  (webview_loads env url = true ->
   ends (previewLoad (S fuel) env path name) (Showing url) 0 /\
   (exists st, viewerLoad (S fuel) env path name = Some st /\ ends st (Showing url) 0) /\
   ends (gridLoad (S fuel) env (file name path)) (Showing url) 0) /\
  (webview_loads env url = false ->
   (exists rest, log (previewLoad 1 env path name) = (request ++ rest)%list) /\
   (exists st rest, viewerLoad 1 env path name = Some st /\ log st = (request ++ rest)%list) /\
   (exists rest, log (gridLoad 1 env (file name path)) = (request ++ rest)%list)) /\
  (webview_loads env url = false -> read_file_as_data_url env path = None ->
   ends (previewLoad (S fuel) env path name) (Text name) 1 /\
   (exists st, viewerLoad (S fuel) env path name = Some st /\ ends st (Text name) 1) /\
   ends (gridLoad (S fuel) env (file name path)) Hidden 1) /\
  (forall d, webview_loads env url = false ->
   read_file_as_data_url env path = Some d -> webview_loads env d = false ->
   ends (previewLoad (S (S fuel)) env path name) (Text name) 1).
Proof.
  intros Hk Hc Hu Hi first request.
  pose proof (preview_start env path name url conv Hk Hc Hu) as Pstart.
  pose proof (viewer_start env path name url conv Hk Hc Hu) as Vstart.
  pose proof (grid_start env path name url conv Hk Hc Hu) as Gstart.
  split; [|split; [|split; [|split]]].
  - unfold previewLoad, viewerLoad, gridLoad. simpl EventLoop.run.
    rewrite Pstart, Vstart. unfold file in *. cbn [ThumbnailGrid.name ThumbnailGrid.path].
    rewrite Gstart. repeat split.
  - intros Hl. unfold previewLoad, viewerLoad, gridLoad.
    rewrite Pstart, Vstart. unfold file in *. cbn [ThumbnailGrid.name ThumbnailGrid.path].
    rewrite Gstart. cbn [fmap option_fmap option_map Viewer.content].
    rewrite !(asset_shown env path name url) by done.
    split; [|split]; [|eexists; split; [reflexivity|]|]; repeat split.
  - intros Hl. destruct (read_file_as_data_url env path) as [d|] eqn:Hr.
    + rewrite (preview_decoded env path name url conv Hk Hc Hu Hi d Hl Hr).
      rewrite (viewer_decoded env path name url conv Hk Hc Hu Hi d Hl Hr).
      rewrite (grid_decoded env path name url conv Hk Hc Hu Hi d Hl Hr).
      split; [|split]; [eexists|do 2 eexists; split; [reflexivity|]|eexists];
        reflexivity.
    + rewrite (preview_rejected env path name url conv Hk Hc Hu Hi 0 Hl Hr).
      rewrite (viewer_rejected env path name url conv Hk Hc Hu Hi 0 Hl Hr).
      rewrite (grid_rejected env path name url conv Hk Hc Hu Hi 0 Hl Hr).
      split; [|split]; [eexists|do 2 eexists; split; [reflexivity|]|eexists];
        reflexivity.
  - intros Hl Hr.
    rewrite (preview_rejected env path name url conv Hk Hc Hu Hi fuel Hl Hr).
    rewrite (viewer_rejected env path name url conv Hk Hc Hu Hi fuel Hl Hr).
    rewrite (grid_rejected env path name url conv Hk Hc Hu Hi fuel Hl Hr).
    split; [|split]; [|eexists; split; [reflexivity|]|]; repeat split.
  - intros d Hl Hr Hd.
    rewrite (preview_data_failed env path name url conv Hk Hc Hu Hi d fuel Hl Hr Hd).
    repeat split.
Qed.

Lemma C2_image_chain_by_site_witness :
  ends (previewLoad 3 brokenEnv "C:\Photos\a.jpg" "a.jpg") (Text "a.jpg") 1 /\
  (exists st, viewerLoad 3 brokenEnv "C:\Photos\a.jpg" "a.jpg" = Some st /\
              ends st (Text "a.jpg") 1) /\
  ends (gridLoad 3 brokenEnv (file "a.jpg" "C:\Photos\a.jpg")) Hidden 1.
Proof.
  destruct (C2_image_chain_by_site brokenEnv "C:\Photos\a.jpg" "a.jpg"
              (assetUrl "C:\Photos\a.jpg") (fun p => Some (assetUrl p)) 2)
    as (_ & _ & _ & H & _).
  - vm_compute. reflexivity.
  - reflexivity.
  - reflexivity.
  - reflexivity.
  - apply H; reflexivity.
Defined.

(** ** C3: videos have no decode fallback *)

(** An element without an error handler: the webview reports the load and
    the script does nothing more. *)
Lemma step_no_handler env path name st :
  onerror st = NoHandler ->
  let st' := EventLoop.step env path name st in
  log st' = log st /\ onerror st' = NoHandler /\ loading st' = false /\
  (loading st = true -> forall u, src st = Some u -> webview_loads env u = false ->
   view st' = view st).
Proof.
  intros Hh. unfold EventLoop.step.
  destruct (loading st) eqn:Hl.
  - destruct (src st) as [u|] eqn:Hs.
    + destruct (webview_loads env u) eqn:Hw.
      * repeat split; auto; intros; congruence.
      * unfold EventLoop.fire. cbn [failed onerror]. rewrite Hh.
        repeat split; auto.
    + repeat split; auto; intros; congruence.
  - repeat split; auto; intros; congruence.
Qed.

Lemma run_no_handler env path name st fuel :
  onerror st = NoHandler ->
  log (EventLoop.run fuel env path name st) = log st.
Proof.
  revert st. induction fuel as [|fuel IH]; intros st Hh; [reflexivity|].
  rewrite run_step. destruct (step_no_handler env path name st Hh) as (Hlog & Hh' & _).
  now rewrite IH, Hlog.
Qed.

Lemma run_no_handler_fails env path name st u fuel :
  onerror st = NoHandler -> loading st = true -> src st = Some u ->
  webview_loads env u = false ->
  let st' := EventLoop.run (S fuel) env path name st in
  view st' = view st /\ log st' = log st /\ loading st' = false.
Proof.
  intros Hh Hl Hs Hw. rewrite run_step.
  destruct (step_no_handler env path name st Hh) as (Hlog & _ & Hl' & Hv).
  rewrite run_settled by exact Hl'. repeat split; auto. now apply (Hv Hl u).
Qed.

(** C3, as stated, fails: the asset reference of clip.mp4 fails in the
    preview pane and the placeholder is shown without any request to the
    backend. *)
Lemma C3_preview_video_no_decode :
  kindOf "clip.mp4" = Some Video /\
  webview_loads brokenEnv (assetUrl "C:\Photos\clip.mp4") = false /\
  log (previewLoad 2 brokenEnv "C:\Photos\clip.mp4" "clip.mp4")
  = [AssetRef "C:\Photos\clip.mp4"; SetSrc (assetUrl "C:\Photos\clip.mp4");
     PlayMedia; Placeholder videoFailedText] /\
  ends (previewLoad 2 brokenEnv "C:\Photos\clip.mp4" "clip.mp4") (Text videoFailedText) 0.
Proof. vm_compute. repeat split. Qed.

(** C3, amended: a file of kind Video has no decode fallback. In the
    preview pane the asset reference is assigned and played; when it fails
    to load, a fixed text is shown at once and the backend was never asked.
    In the viewer the asset reference is assigned to a video element without
    any error handler: on failure nothing is requested and no placeholder
    appears. In the grid no asset reference is made at all: the thumbnail is
    requested from the backend up front, and the text Video is shown when
    that request is rejected. *)
Theorem C3_video_no_decode_fallback
    (env : Env) (path name url : string) (conv : string -> option string)
    (fuel : nat) :
  kindOf name = Some Video ->
  convertFileSrc env = Some conv -> conv path = Some url -> url <> "" ->
  invoke_available env = true ->
  (log (previewLoad 0 env path name) = [AssetRef path; SetSrc url; PlayMedia] /\
   (webview_loads env url = false ->
    ends (previewLoad (S fuel) env path name) (Text videoFailedText) 0)) /\
  (exists st, viewerLoad (S fuel) env path name = Some st /\
     log st = [AssetRef path; SetSrc url] /\ onerror st = NoHandler /\
     (webview_loads env url = false -> ends st Blank 0)) /\
  (let st := gridLoad (S fuel) env (file name path) in
   (forall e, e ∈ log st -> is_asset_ref e = false) /\
   (exists rest, log st
      = SetSrc "" :: Invoke "get_video_thumbnail_data_url" path :: rest) /\
   (get_video_thumbnail_data_url env path = None -> ends st (Text "Video") 1)).
Proof.
  intros Hk Hc Hu Hne Hi.
  destruct (kind_flags _ _ Hk) as (M1 & M2 & M3 & V1 & V2 & V3 & _).
  destruct (kindOf_Some _ _ Hk) as (_ & Hh & Hp & Hv).
  split; [|split].
  - unfold previewLoad, Main.showPreview.
    rewrite M1, M2, M3, Hh, Hp, Hv, Hc, Hu. split; [reflexivity|].
    intros Hl. rewrite run_step. unfold EventLoop.step. simpl. rewrite Hl.
    rewrite run_settled by reflexivity. repeat split.
  - unfold viewerLoad, Viewer.showImage.
    rewrite V1, V2, V3, Hh, Hp, Hv, Hc, Hu.
    destruct url as [|c url']; [contradiction|].
    cbn [fmap option_fmap option_map Viewer.content].
    eexists. split; [reflexivity|].
    set (st0 := set_src (String c url') (emit (AssetRef path) fresh)).
    assert (H0 : onerror st0 = NoHandler) by reflexivity.
    split; [now rewrite run_no_handler|].
    split.
    + rewrite run_step.
      destruct (step_no_handler env path name st0 H0) as (_ & Hh' & Hl' & _).
      now rewrite run_settled.
    + intros Hl.
      destruct (run_no_handler_fails env path name st0 (String c url') fuel
                  H0 eq_refl eq_refl Hl) as (Hview & Hlog & Hload).
      unfold ends, invocations. rewrite Hview, Hlog, Hload. repeat split.
  - unfold gridLoad, thumbnail, file. cbn [ThumbnailGrid.name ThumbnailGrid.path].
    rewrite Hh, Hp, Hv, Hi.
    destruct (get_video_thumbnail_data_url env path) as [d|] eqn:Ht.
    + set (st0 := set_src d _).
      assert (H0 : onerror st0 = NoHandler) by reflexivity.
      rewrite (run_no_handler env path name st0 (S fuel) H0).
      split; [|split].
      * intros e He. simpl in He.
        repeat (apply elem_of_cons in He as [-> | He]; [reflexivity|]).
        inversion He.
      * eexists. reflexivity.
      * discriminate.
    + set (st0 := show_text "Video" _).
      assert (H0 : onerror st0 = NoHandler) by reflexivity.
      pose proof (run_no_handler env path name st0 (S fuel) H0) as Hlog.
      assert (Hrun : EventLoop.run (S fuel) env path name st0 = failed st0).
      { rewrite run_step. unfold EventLoop.step. simpl.
        now rewrite run_settled. }
      split; [|split].
      * intros e He. rewrite Hlog in He. simpl in He.
        repeat (apply elem_of_cons in He as [-> | He]; [reflexivity|]).
        inversion He.
      * rewrite Hlog. eexists. reflexivity.
      * intros _. rewrite Hrun. repeat split.
Qed.

Lemma C3_video_no_decode_fallback_witness :
  ends (previewLoad 3 brokenEnv "C:\Photos\clip.mp4" "clip.mp4") (Text videoFailedText) 0 /\
  ends (gridLoad 3 brokenEnv (file "clip.mp4" "C:\Photos\clip.mp4")) (Text "Video") 1.
Proof.
  destruct (C3_video_no_decode_fallback brokenEnv "C:\Photos\clip.mp4" "clip.mp4"
              (assetUrl "C:\Photos\clip.mp4") (fun p => Some (assetUrl p)) 2)
    as ((_ & Hp) & _ & (_ & _ & Hg)).
  - vm_compute. reflexivity.
  - reflexivity.
  - reflexivity.
  - discriminate.
  - reflexivity.
  - split; [apply Hp | apply Hg]; reflexivity.
Defined.

(** ** C7: audio is always decoded first *)

Lemma played_after_decode_snoc l e :
  played_after_decode l ->
  (e = PlayMedia -> exists p, Invoke audioCmd p ∈ l) ->
  played_after_decode (l ++ [e]).
Proof.
  intros Hl He l1 l2 Heq.
  destruct l2 as [|x l2 _] using rev_ind.
  - apply app_inj_tail in Heq as [-> ->]. now apply He.
  - rewrite app_comm_cons, app_assoc in Heq.
    apply app_inj_tail in Heq as [Heq _]. now apply (Hl l1 l2).
Qed.

Lemma say_ok env p e :
  player_ok env p -> is_asset_ref e = false ->
  (e = PlayMedia -> exists t, Invoke audioCmd t ∈ Main.plog p) ->
  player_ok env (Main.say e p).
Proof.
  intros [Ha Hs Hp] He Hplay. split; simpl.
  - intros e' Hin. apply elem_of_app in Hin as [Hin | Hin]; [now apply Ha|].
    apply list_elem_of_singleton in Hin. now subst.
  - intros u Hu. destruct (Hs u Hu) as (t & Ht & Hin).
    exists t. split; [exact Ht|]. apply elem_of_app. now left.
  - now apply played_after_decode_snoc.
Qed.

Lemma play_ok env p :
  player_ok env p -> (exists u, Main.audio_src p = Some u) ->
  player_ok env (fst (Main.play env p)).
Proof.
  intros Hok [u Hu].
  assert (Hsay : player_ok env (Main.say PlayMedia p)).
  { apply say_ok; auto. intros _.
    destruct (src_decoded _ _ Hok u Hu) as (t & _ & Hin). now exists t. }
  unfold Main.play. cbn [Main.say Main.audio_src]. rewrite Hu.
  destruct (plays env u); [|exact Hsay].
  destruct Hsay as [Ha Hs Hp]. constructor; [exact Ha | | exact Hp].
  intros u0 Hu0. simpl in Hu0. apply Hs. simpl. congruence.
Qed.

Lemma play_log env p :
  Main.plog (fst (Main.play env p)) = (Main.plog p ++ [PlayMedia])%list.
Proof.
  unfold Main.play. cbn [Main.say Main.audio_src].
  destruct (Main.audio_src p) as [u|]; [destruct (plays env u)|]; reflexivity.
Qed.

Lemma startAudioPlayback_ok env filePath p :
  player_ok env p -> player_ok env (Main.startAudioPlayback env filePath p).
Proof.
  intros Hok. unfold Main.startAudioPlayback.
  destruct filePath as [|c rest]; [apply say_ok; auto; discriminate|].
  set (filePath := String c rest).
  destruct (invoke_available env); simpl negb; cbv iota;
    [|apply say_ok; auto; discriminate].
  assert (Hreq : player_ok env
            (Main.say (Invoke audioCmd filePath) (Main.say (Help "Loading…" false) p))).
  { repeat (apply say_ok; auto; try discriminate). }
  fold audioCmd.
  destruct (read_file_as_audio_url env filePath) as [dataUrl|] eqn:Hread;
    [|apply say_ok; auto; discriminate].
  assert (Hclr : player_ok env
            (Main.say (Help "" false)
               (Main.say (Invoke audioCmd filePath) (Main.say (Help "Loading…" false) p)))).
  { apply say_ok; auto; discriminate. }
  destruct dataUrl as [|c' rest']; [apply say_ok; auto; discriminate|].
  set (dataUrl := String c' rest') in *.
  match goal with |- player_ok env (let '(_, _) := Main.play env ?q in _) =>
    set (loaded := q) end.
  assert (Hloaded : player_ok env loaded).
  { destruct Hclr as [Ha Hs Hp]. split; unfold loaded; cbn [Main.plog Main.audio_src].
    - intros e Hin. apply elem_of_app in Hin as [Hin | Hin]; [now apply Ha|].
      apply list_elem_of_singleton in Hin. now subst.
    - intros u [= <-]. exists filePath. split; [exact Hread|].
      simpl. rewrite !elem_of_app, !list_elem_of_singleton. tauto.
    - apply played_after_decode_snoc; [exact Hp | discriminate]. }
  pose proof (play_ok env loaded Hloaded (ex_intro _ dataUrl eq_refl)) as Hplay.
  destruct (Main.play env loaded) as [q fine]. simpl in Hplay.
  destruct fine; [exact Hplay|]. apply say_ok; auto; discriminate.
Qed.

Lemma player_ok_same env p q :
  Main.audio_src q = Main.audio_src p -> Main.plog q = Main.plog p ->
  player_ok env p -> player_ok env q.
Proof.
  intros Hs Hl [Ha Hsrc Hp]. split; rewrite ?Hs, ?Hl; auto.
Qed.

Lemma handle_ok env e p : player_ok env p -> player_ok env (Main.handle env e p).
Proof.
  intros Hok. destruct e as [filePath| |]; simpl.
  - apply startAudioPlayback_ok. now apply (player_ok_same env p).
  - destruct (Main.selectedTrackPath p) as [[|c track]|];
      try (apply say_ok; auto; discriminate).
    destruct (Main.paused p); [|now apply (player_ok_same env p)].
    destruct (Main.audio_src p) as [u|] eqn:Hu;
      [|now apply startAudioPlayback_ok].
    pose proof (play_ok env p Hok (ex_intro _ u Hu)) as Hplay.
    destruct (Main.play env p) as [q fine]. simpl in Hplay.
    destruct fine; [exact Hplay|]. apply say_ok; auto; discriminate.
  - apply say_ok; try discriminate; auto. now apply (player_ok_same env p).
Qed.

Lemma idle_ok env : player_ok env Main.idle.
Proof.
  split; simpl.
  - intros e He. inversion He.
  - discriminate.
  - intros [|x l1] l2; discriminate.
Qed.

Lemma handleAll_ok env es p :
  player_ok env p -> player_ok env (Main.handleAll env es p).
Proof.
  revert p. induction es as [|e es IH]; intros p Hok; [exact Hok|].
  apply IH. now apply handle_ok.
Qed.

(** The request comes first: nothing but the Loading message precedes it. *)
Lemma startAudioPlayback_requests env track p :
  track <> "" -> invoke_available env = true ->
  exists rest,
    Main.plog (Main.startAudioPlayback env track p)
    = (Main.plog p ++ Help "Loading…" false :: Invoke audioCmd track :: rest)%list.
Proof.
  intros Hne Hi. unfold Main.startAudioPlayback.
  destruct track as [|c t]; [contradiction|]. rewrite Hi. simpl negb. cbv iota.
  set (track := String c t). fold audioCmd.
  destruct (read_file_as_audio_url env track) as [[|c' d]|].
  - eexists. simpl. rewrite <- !app_assoc. simpl. reflexivity.
  - match goal with |- context [Main.play env ?q] => set (loaded := q) end.
    pose proof (play_log env loaded) as Hlog.
    destruct (Main.play env loaded) as [q fine]. simpl in Hlog.
    destruct fine; simpl; rewrite Hlog; unfold loaded; simpl;
      rewrite <- !app_assoc; simpl; eexists; reflexivity.
  - eexists. simpl. rewrite <- !app_assoc. simpl. reflexivity.
Qed.

(** C7: after any sequence of track selections and button presses, the
    player never made an asset reference; every [play()] was preceded by a
    request for a playable representation; the source of the audio
    element, if any, is a data representation the backend returned for a
    requested track. And starting a track inside Tauri asks for its playable
    representation before anything else but the Loading message. *)
Theorem C7_audio_always_decoded (env : Env) (events : list Main.Event) :
  let p := Main.handleAll env events Main.idle in
  (forall e, e ∈ Main.plog p -> is_asset_ref e = false) /\
  (forall l1 l2, Main.plog p = (l1 ++ PlayMedia :: l2)%list ->
     exists track, Invoke audioCmd track ∈ l1) /\
  (forall u, Main.audio_src p = Some u ->
     exists track, read_file_as_audio_url env track = Some u /\
                   Invoke audioCmd track ∈ Main.plog p) /\
  (forall track q, track <> "" -> invoke_available env = true ->
     exists rest, Main.plog (Main.startAudioPlayback env track q)
       = (Main.plog q ++ Help "Loading…" false :: Invoke audioCmd track :: rest)%list).
Proof.
  intros p. destruct (handleAll_ok env events Main.idle (idle_ok env)) as [Ha Hs Hp].
  split; [exact Ha|]. split; [exact Hp|]. split; [exact Hs|].
  intros track q. apply startAudioPlayback_requests.
Qed.

Lemma C7_audio_always_decoded_witness :
  Main.plog (Main.handleAll musicEnv
               [Main.SelectTrack "C:\Music\a.mp3"; Main.ClickPlay; Main.ClickPlay]
               Main.idle)
  = [Help "Loading…" false; Invoke audioCmd "C:\Music\a.mp3"; Help "" false;
     SetSrc "data:audio;base64,C:\Music\a.mp3"; PlayMedia; PlayMedia] /\
  exists track, Invoke audioCmd track ∈ [Help "Loading…" false;
                                        Invoke audioCmd "C:\Music\a.mp3";
                                        Help "" false;
                                        SetSrc "data:audio;base64,C:\Music\a.mp3"].
Proof.
  split; [vm_compute; reflexivity|].
  destruct (C7_audio_always_decoded musicEnv
              [Main.SelectTrack "C:\Music\a.mp3"; Main.ClickPlay; Main.ClickPlay])
    as (_ & H & _).
  apply (H _ [PlayMedia]). vm_compute. reflexivity.
Defined.

(** ** C10: the index the viewer adopts *)

Lemma adopt_vars env ps v s :
  Viewer.paths (fst (Viewer.adopt env ps v s)) = ps /\
  Viewer.index (fst (Viewer.adopt env ps v s)) = Viewer.clampIndex ps v.
Proof.
  unfold Viewer.adopt.
  destruct (Viewer.item ps (Viewer.clampIndex ps v)) as [p|]; [|split; reflexivity].
  destruct (Viewer.updateDisplay env p (Viewer.getName p)); split; reflexivity.
Qed.

Lemma init_vars env ps v s :
  ps <> [] -> invoke_available env = true ->
  Viewer.paths (Viewer.init env (contextOf ps v) s) = ps /\
  Viewer.index (Viewer.init env (contextOf ps v) s) = Viewer.clampIndex ps v.
Proof.
  intros Hne Hi. unfold Viewer.init, contextOf. rewrite Hi. simpl negb. cbv iota.
  destruct ps as [|p ps]; [contradiction|]. cbn [Viewer.usable].
  pose proof (adopt_vars env (p :: ps) v s) as Hv.
  destruct (Viewer.adopt env (p :: ps) v s) as [s' fine]. simpl in Hv.
  destruct fine; exact Hv.
Qed.

Lemma syncFromState_vars env ps v s :
  ps <> [] -> invoke_available env = true -> Viewer.paths s <> [] ->
  Viewer.paths (Viewer.syncFromState env (contextOf ps v) s) = ps /\
  Viewer.index (Viewer.syncFromState env (contextOf ps v) s) = Viewer.clampIndex ps v.
Proof.
  intros Hne Hi Hs. unfold Viewer.syncFromState, contextOf. rewrite Hi.
  rewrite bool_decide_eq_false_2 by exact Hs. simpl.
  destruct ps as [|p ps]; [contradiction|]. apply adopt_vars.
Qed.

(** C10, as stated, fails: a negative index is a number, it is below the
    length, and so it is adopted as it is; the viewer then finds no item to
    display. *)
Lemma C10_negative_index_kept :
  let s := Viewer.init musicEnv (contextOf ["C:\Photos\a.jpg"] (Viewer.JNum (-1)))
             Viewer.initial in
  Viewer.paths s = ["C:\Photos\a.jpg"] /\
  Viewer.index s = (-1)%Z /\
  ~ (0 <= Viewer.index s < Z.of_nat (length (Viewer.paths s)))%Z /\
  view (Viewer.content (Viewer.pane s)) = Text "Failed to load context".
Proof.
  vm_compute. repeat split. intros [H _]. apply H. reflexivity.
Qed.

(** C10, amended: when the fetched sequence is not empty and the fetched
    index, if it is a number, is not negative, then at open and at every
    focus resync the viewer adopts the sequence and an index within it: a
    number at or beyond the length becomes the last index, a smaller one is
    kept, and anything that is not a number becomes 0; there is an item at
    the adopted index. *)
Theorem C10_index_within_sequence
    (env : Env) (ps : list string) (v : Viewer.JsVal) (s : Viewer.State) :
  ps <> [] -> invoke_available env = true ->
  (forall z, v = Viewer.JNum z -> (0 <= z)%Z) ->
  let len := Z.of_nat (length ps) in
  let opened := Viewer.init env (contextOf ps v) s in
  let synced := Viewer.syncFromState env (contextOf ps v) s in
  Viewer.paths opened = ps /\
  (0 <= Viewer.index opened < len)%Z /\
  is_Some (Viewer.item ps (Viewer.index opened)) /\
  (forall z, v = Viewer.JNum z -> (len <= z)%Z -> Viewer.index opened = (len - 1)%Z) /\
  (forall z, v = Viewer.JNum z -> (z < len)%Z -> Viewer.index opened = z) /\
  ((forall z, v <> Viewer.JNum z) -> Viewer.index opened = 0%Z) /\
  (Viewer.paths s <> [] ->
   Viewer.paths synced = ps /\ Viewer.index synced = Viewer.index opened).
Proof.
  intros Hne Hi Hv len opened synced.
  destruct (init_vars env ps v s Hne Hi) as [Hp Hidx].
  fold opened in Hp, Hidx.
  assert (Hlen : (0 < len)%Z).
  { unfold len. destruct ps; [contradiction|]. simpl length. lia. }
  assert (Hrange : (0 <= Viewer.clampIndex ps v < len)%Z).
  { unfold Viewer.clampIndex. fold len.
    destruct v as [| | b | z | t]; try (case_decide; lia).
    specialize (Hv z eq_refl). case_decide; lia. }
  split; [exact Hp|]. split; [now rewrite Hidx|]. split; [|split; [|split; [|split]]].
  - rewrite Hidx. unfold Viewer.item. case_decide; [|lia].
    apply lookup_lt_is_Some. unfold len in Hrange. lia.
  - intros z -> Hz. rewrite Hidx. unfold Viewer.clampIndex. fold len.
    case_decide; lia.
  - intros z -> Hz. rewrite Hidx. unfold Viewer.clampIndex. fold len.
    case_decide; lia.
  - intros Hnn. rewrite Hidx. unfold Viewer.clampIndex. fold len.
    destruct v as [| | b | z | t]; try (case_decide; lia).
    now destruct (Hnn z).
  - intros Hs. destruct (syncFromState_vars env ps v s Hne Hi Hs) as [Hp' Hidx'].
    fold synced in Hp', Hidx'. split; congruence.
Qed.

Lemma C10_index_within_sequence_witness :
  let opened := Viewer.init musicEnv
                  (contextOf ["C:\Photos\a.jpg"; "C:\Photos\b.jpg"] (Viewer.JNum 7))
                  Viewer.initial in
  Viewer.index opened = 1%Z /\ (0 <= Viewer.index opened < 2)%Z.
Proof.
  destruct (C10_index_within_sequence musicEnv ["C:\Photos\a.jpg"; "C:\Photos\b.jpg"]
              (Viewer.JNum 7) Viewer.initial)
    as (_ & Hrange & _ & Hclamp & _).
  - discriminate.
  - reflexivity.
  - intros z [= <-]. lia.
  - split; [apply (Hclamp 7%Z eq_refl); simpl; lia | exact Hrange].
Defined.

(** ** C6: wrap-around *)

Import Backend.

Lemma advanceIndex_next len i :
  (i < len)%nat -> advanceIndex Next len i = ((i + 1) mod len)%nat.
Proof.
  intros Hi. unfold advanceIndex. case_decide.
  - rewrite Nat.mod_small by lia. lia.
  - assert (i + 1 = len)%nat as -> by lia. now rewrite Nat.Div0.mod_same.
Qed.

Lemma advanceIndex_range d len i :
  (i < len)%nat -> (advanceIndex d len i < len)%nat.
Proof.
  intros Hi. destruct d; simpl; [case_decide; lia | destruct i; lia].
Qed.

Lemma iter_next ctx k :
  (currentIndex ctx < length (orderedPaths ctx))%nat ->
  Nat.iter k (advance Next) ctx
  = {| orderedPaths := orderedPaths ctx;
       currentIndex := ((currentIndex ctx + k) mod length (orderedPaths ctx))%nat |}.
Proof.
  intros Hi. induction k as [|k IH].
  - simpl. rewrite Nat.add_0_r, Nat.mod_small by exact Hi. now destruct ctx.
  - rewrite Nat.iter_succ, IH. unfold advance.
    cbn [orderedPaths currentIndex]. f_equal.
    rewrite advanceIndex_next by (apply Nat.mod_upper_bound; lia).
    rewrite Nat.Div0.add_mod_idemp_l. f_equal. lia.
Qed.

(** C6: in a context whose index is within its sequence, advancing Next as
    many times as the sequence is long comes back to the same context;
    Next at the last item yields the first item and Previous at the first
    item yields the last. *)
Theorem C6_advance_wraps_around (ctx : ViewerContext) :
  (currentIndex ctx < length (orderedPaths ctx))%nat ->
  let entry := fun p : string => (p, Viewer.getName p) in
  Nat.iter (length (orderedPaths ctx)) (advance Next) ctx = ctx /\
  (currentIndex ctx = (length (orderedPaths ctx) - 1)%nat ->
   currentIndex (advance Next ctx) = 0%nat /\
   currentEntry (advance Next ctx) = entry <$> head (orderedPaths ctx)) /\
  (currentIndex ctx = 0%nat ->
   currentIndex (advance Previous ctx) = (length (orderedPaths ctx) - 1)%nat /\
   currentEntry (advance Previous ctx) = entry <$> last (orderedPaths ctx)).
Proof.
  intros Hi entry. split; [|split].
  - rewrite iter_next by exact Hi.
    replace (currentIndex ctx + length (orderedPaths ctx))%nat
      with (currentIndex ctx + 1 * length (orderedPaths ctx))%nat by lia.
    rewrite Nat.Div0.mod_add, Nat.mod_small by exact Hi. now destruct ctx.
  - intros Hlast.
    assert (H0 : currentIndex (advance Next ctx) = 0%nat).
    { simpl. unfold advanceIndex. case_decide; [lia|reflexivity]. }
    split; [exact H0|]. unfold currentEntry. rewrite H0. simpl.
    now rewrite head_lookup.
  - intros Hfirst.
    assert (H0 : currentIndex (advance Previous ctx)
                 = (length (orderedPaths ctx) - 1)%nat).
    { simpl. now rewrite Hfirst. }
    split; [exact H0|]. unfold currentEntry. rewrite H0. simpl.
    rewrite last_lookup. do 2 f_equal. lia.
Qed.

Lemma C6_advance_wraps_around_witness :
  let ctx := openSecondaryContext ["C:\P\a.jpg"; "C:\P\b.jpg"; "C:\P\c.mp4"] 2 in
  Nat.iter 3 (advance Next) ctx = ctx /\
  currentEntry (advance Next ctx) = Some ("C:\P\a.jpg", "a.jpg").
Proof.
  destruct (C6_advance_wraps_around
              (openSecondaryContext ["C:\P\a.jpg"; "C:\P\b.jpg"; "C:\P\c.mp4"] 2))
    as (Hloop & Hnext & _).
  - simpl. lia.
  - split; [exact Hloop|]. destruct (Hnext eq_refl) as [_ H]. exact H.
Defined.

(** ** C5: the viewer navigates the sequence of the grid *)

Lemma loadThumbnails_rendered env ls folder es f fs initial :
  invoke_available env = true ->
  ls folder = Some (listed es) ->
  mediaFiles es = f :: fs ->
  exists sel call,
    loadThumbnails env ls folder true initial
    = {| grid := Cells (map (cellOf env) (f :: fs)) sel;
         paths := map path (f :: fs);
         onSelect_call := call |}.
Proof.
  intros Hinv Hls Hfiles. unfold loadThumbnails.
  rewrite Hinv, Hls. simpl. rewrite Hfiles. do 2 eexists. reflexivity.
Qed.

Lemma advance_all_range ctx ds :
  (currentIndex ctx < length (orderedPaths ctx))%nat ->
  let c := foldr advance ctx ds in
  orderedPaths c = orderedPaths ctx /\
  (currentIndex c < length (orderedPaths ctx))%nat.
Proof.
  intros Hi. induction ds as [|d ds [IHp IHi]]; simpl; [auto|].
  split; [exact IHp|]. rewrite IHp. now apply advanceIndex_range.
Qed.

(** C5: once the grid shows a folder, a double click on its cell [i] hands
    the path list of the grid to the backend with [i]; the viewer opened on
    that snapshot adopts the same list and the same index, and whatever
    Next and Previous steps follow, the backend keeps that list and answers
    the item of the grid's list at its current index, the k-th Next being
    the item k places further, wrapping around. *)
Theorem C5_viewer_sequence_is_grid_sequence
    (env : Env) (ls : string -> option ListResult) (folder : string)
    (initial : option string) (es : list Entry) (f : Entry) (fs : list Entry)
    (i : nat) :
  invoke_available env = true ->
  ls folder = Some (listed es) ->
  mediaFiles es = f :: fs ->
  (i < length (mediaFiles es))%nat ->
  let r := loadThumbnails env ls folder true initial in
  let gridPaths := map path (mediaFiles es) in
  let entry := fun p : string => (p, Viewer.getName p) in
  paths r = gridPaths /\
  (dblclick r i ≫= Main.onActivate env) = Some (gridPaths, i) /\
  (let ctx := openSecondaryContext gridPaths i in
   let opened := Viewer.init env (Some (answer ctx)) Viewer.initial in
   Viewer.paths opened = gridPaths /\
   Viewer.index opened = Z.of_nat i /\
   (forall ds, let c := foldr advance ctx ds in
      orderedPaths c = gridPaths /\
      exists j, currentIndex c = j /\ (j < length gridPaths)%nat /\
                currentEntry c = entry <$> gridPaths !! j) /\
   (forall k, currentEntry (Nat.iter k (advance Next) ctx)
              = entry <$> gridPaths !! ((i + k) mod length gridPaths)%nat)).
Proof.
  intros Hinv Hls Hfiles Hi r gridPaths entry.
  destruct (loadThumbnails_rendered env ls folder es f fs initial Hinv Hls Hfiles)
    as (sel & call & Hr).
  fold r in Hr.
  assert (Hpaths : paths r = gridPaths).
  { rewrite Hr. unfold gridPaths. now rewrite Hfiles. }
  assert (Hlen : length gridPaths = length (mediaFiles es)).
  { unfold gridPaths. apply length_map. }
  split; [exact Hpaths|]. split.
  - unfold dblclick. rewrite Hpaths, Hr. cbn [grid].
    rewrite length_map, <- Hfiles, decide_True by exact Hi.
    cbn [mbind option_bind]. unfold Main.onActivate. rewrite Hinv.
    unfold gridPaths. rewrite Hfiles. reflexivity.
  - intros ctx opened.
    assert (Hne : gridPaths <> []).
    { unfold gridPaths. rewrite Hfiles. discriminate. }
    assert (Hctx : (currentIndex ctx < length (orderedPaths ctx))%nat).
    { simpl. lia. }
    destruct (init_vars env gridPaths (Viewer.JNum (Z.of_nat i)) Viewer.initial Hne Hinv)
      as [Hp Hidx].
    split; [exact Hp|]. split; [|split].
    + transitivity (Viewer.clampIndex gridPaths (Viewer.JNum (Z.of_nat i)));
        [exact Hidx|].
      unfold Viewer.clampIndex. case_decide; lia.
    + intros ds c. destruct (advance_all_range ctx ds Hctx) as [Hc1 Hc2].
      fold c in Hc1, Hc2. simpl in Hc1, Hc2.
      split; [exact Hc1|]. exists (currentIndex c).
      split; [reflexivity|]. split; [exact Hc2|].
      unfold currentEntry. now rewrite Hc1.
    + intros k. rewrite iter_next by exact Hctx. reflexivity.
Qed.

Lemma C5_viewer_sequence_is_grid_sequence_witness :
  let r := loadThumbnails musicEnv photosOnly "C:\Photos" true None in
  paths r = ["C:\Photos\A.PNG"; "C:\Photos\b.jpg"; "C:\Photos\c.mp4"] /\
  (dblclick r 1 ≫= Main.onActivate musicEnv)
  = Some (["C:\Photos\A.PNG"; "C:\Photos\b.jpg"; "C:\Photos\c.mp4"], 1%nat).
Proof.
  destruct (C5_viewer_sequence_is_grid_sequence musicEnv photosOnly "C:\Photos" None
              (scenarioFolder "C:\Photos\b.jpg" "C:\Photos\A.PNG"
                              "C:\Photos\c.mp4" "C:\Photos\d.txt")
              (file "A.PNG" "C:\Photos\A.PNG")
              [file "b.jpg" "C:\Photos\b.jpg"; file "c.mp4" "C:\Photos\c.mp4"] 1)
    as (H1 & H2 & _).
  - reflexivity.
  - reflexivity.
  - vm_compute. reflexivity.
  - vm_compute. lia.
  - split; [exact H1 | exact H2].
Defined.

(** An instance: report.pdf is a grid entry of the single kind Pdf,
    notes.txt is not a grid entry. *)
Lemma C9_grid_kinds_exclusive_witness :
  (exists k, kindOf "report.pdf" = Some k /\ k <> Audio /\
             kindsContaining gridKinds "report.pdf" = [k]) /\
  file "notes.txt" "C:\Photos\notes.txt"
    ∉ mediaFiles [file "report.pdf" "C:\Photos\report.pdf";
                  file "notes.txt" "C:\Photos\notes.txt"].
Proof.
  destruct C9_grid_kinds_exclusive as (_ & Hin & Hout & _). split.
  - apply (Hin [file "report.pdf" "C:\Photos\report.pdf";
                file "notes.txt" "C:\Photos\notes.txt"]
               (file "report.pdf" "C:\Photos\report.pdf")).
    vm_compute. left.
  - apply Hout. vm_compute. reflexivity.
Defined.

(** * Further properties of the scripts *)

(** ** The order of the grid *)

Lemma compare_keys_refl k : Js.compare_keys k k = Eq.
Proof.
  induction k as [|w k IH]; simpl; [reflexivity|]. now rewrite Nat.compare_refl.
Qed.

Lemma compare_keys_antisym a b :
  Js.compare_keys a b = CompOpp (Js.compare_keys b a).
Proof.
  revert b. induction a as [|x a IH]; intros [|y b]; simpl; try reflexivity.
  rewrite (Nat.compare_antisym y x).
  destruct (y ?= x)%nat; simpl; auto.
Qed.

Lemma compare_keys_eq a b : Js.compare_keys a b = Eq -> a = b.
Proof.
  revert b. induction a as [|x a IH]; intros [|y b]; simpl; try discriminate; auto.
  destruct (x ?= y)%nat eqn:E; try discriminate.
  apply Nat.compare_eq in E. intros H. f_equal; auto.
Qed.

Lemma compare_keys_trans a b c :
  Js.compare_keys a b <> Gt -> Js.compare_keys b c <> Gt -> Js.compare_keys a c <> Gt.
Proof.
  revert b c. induction a as [|x a IH]; intros [|y b] [|z c]; simpl; try congruence.
  destruct (x ?= y)%nat eqn:E1; destruct (y ?= z)%nat eqn:E2; try congruence;
    try apply Nat.compare_eq in E1; try apply Nat.compare_eq in E2; subst;
    try rewrite ?Nat.compare_lt_iff in *.
  - rewrite Nat.compare_refl. apply IH.
  - intros _ _. apply Nat.compare_lt_iff in E2. now rewrite E2.
  - intros _ _. apply Nat.compare_lt_iff in E1. now rewrite E1.
  - intros _ _. assert (x < z)%nat as Hlt by lia.
    apply Nat.compare_lt_iff in Hlt. now rewrite Hlt.
Qed.

Lemma in_order_trans a b c : in_order a b -> in_order b c -> in_order a c.
Proof. apply compare_keys_trans. Qed.

Lemma in_order_total a b :
  Js.localeCompare_base (name a) (name b) = Gt -> in_order b a.
Proof.
  unfold in_order, Js.localeCompare_base. intros H.
  rewrite compare_keys_antisym, H. discriminate.
Qed.

Section SortOrder.
Context {A : Type} (cmp : A -> A -> comparison).
Let le (a b : A) : Prop := cmp a b <> Gt.
Hypothesis le_trans : forall a b c, le a b -> le b c -> le a c.
Hypothesis le_total : forall a b, cmp a b = Gt -> le b a.

Lemma insert_stable_sorted x l :
  StronglySorted le l -> StronglySorted le (Js.insert_stable cmp x l).
Proof.
  induction 1 as [|y l Hl IH Hy]; simpl; [repeat constructor|].
  destruct (cmp x y) eqn:E.
  - constructor; [now constructor|]. constructor; [unfold le; congruence|].
    eapply Forall_impl; [exact Hy|]. intros z Hz. apply (le_trans x y z); auto.
    unfold le. congruence.
  - constructor; [now constructor|]. constructor; [unfold le; congruence|].
    eapply Forall_impl; [exact Hy|]. intros z Hz. apply (le_trans x y z); auto.
    unfold le. congruence.
  - constructor; [exact IH|].
    rewrite (insert_stable_perm cmp x l). constructor; auto.
Qed.

Lemma sort_sorted l : StronglySorted le (Js.sort cmp l).
Proof.
  induction l as [|x l IH]; simpl; [constructor|]. now apply insert_stable_sorted.
Qed.

(** Sorting a sorted array changes nothing. *)
Lemma sort_of_sorted l : StronglySorted le l -> Js.sort cmp l = l.
Proof.
  induction 1 as [|x l Hl IH Hx]; simpl; [reflexivity|]. rewrite IH.
  destruct l as [|y l]; [reflexivity|]. simpl.
  apply Forall_cons in Hx as [Hxy _]. unfold le in Hxy.
  destruct (cmp x y); congruence.
Qed.

(** Elements that tie with [k] pass the elements they are inserted over. *)
Lemma insert_stable_filter (tie : A -> bool) x l :
  (forall y, tie x = true -> tie y = true -> cmp x y <> Gt) ->
  List.filter tie (Js.insert_stable cmp x l) = List.filter tie (x :: l).
Proof.
  intros Htie. induction l as [|y l IH]; [reflexivity|].
  cbn [Js.insert_stable]. destruct (cmp x y) eqn:E; try reflexivity.
  cbn [List.filter] in *. rewrite IH.
  destruct (tie x) eqn:Ex, (tie y) eqn:Ey; try reflexivity.
  now destruct (Htie y eq_refl Ey).
Qed.

Lemma sort_filter (tie : A -> bool) l :
  (forall x y, tie x = true -> tie y = true -> cmp x y <> Gt) ->
  List.filter tie (Js.sort cmp l) = List.filter tie l.
Proof.
  intros Htie. induction l as [|x l IH]; [reflexivity|]. simpl Js.sort.
  rewrite insert_stable_filter by (intros y; apply Htie).
  cbn [List.filter]. now rewrite IH.
Qed.
End SortOrder.

Lemma filter_all {A} (f : A -> bool) l :
  (forall x, x ∈ l -> f x = true) -> List.filter f l = l.
Proof.
  induction l as [|x l IH]; intros H; [reflexivity|]. simpl.
  rewrite (H x) by constructor. f_equal. apply IH. intros y Hy. apply H. now constructor.
Qed.

Lemma mediaFiles_sorted es : StronglySorted in_order (mediaFiles es).
Proof.
  unfold mediaFiles.
  apply (sort_sorted (fun a b => Js.localeCompare_base (name a) (name b))).
  - intros a b c. apply in_order_trans.
  - intros a b. apply in_order_total.
Qed.

(** X1: the sequence of the grid is a rearrangement of exactly the entries
    of the listing that are files of a supported kind, none lost and none
    repeated, and every entry of it precedes, in the collation, all the
    entries after it. *)
Theorem X1_sequence_sorted_rearrangement (es : list Entry) :
  mediaFiles es ≡ₚ List.filter shownInGrid es /\
  StronglySorted in_order (mediaFiles es).
Proof.
  split; [apply sort_perm | apply mediaFiles_sorted].
Qed.

(** X2: the sort is stable on the names the collation cannot tell apart:
    among the files whose names tie with a given one (they differ by case
    only, as a.jpg and A.JPG), the sequence keeps the order in which the
    listing reported them. *)
Theorem X2_ties_keep_listing_order (k : Entry) (es : list Entry) :
  List.filter (ties_with k) (mediaFiles es)
  = List.filter (ties_with k) (List.filter shownInGrid es).
Proof.
  unfold mediaFiles. apply sort_filter. intros x y Hx Hy.
  unfold ties_with, Js.localeCompare_base in *.
  destruct (Js.compare_keys (Js.primary_key (name x)) (Js.primary_key (name k))) eqn:Ex;
    try discriminate.
  destruct (Js.compare_keys (Js.primary_key (name y)) (Js.primary_key (name k))) eqn:Ey;
    try discriminate.
  apply compare_keys_eq in Ex, Ey. rewrite Ex, Ey, compare_keys_refl. discriminate.
Qed.

(** X3: listing the sequence again gives the same sequence: the filter
    keeps all of it and the sort leaves it in place. *)
Theorem X3_sequence_is_fixed_point (es : list Entry) :
  mediaFiles (mediaFiles es) = mediaFiles es.
Proof.
  unfold mediaFiles at 1. rewrite filter_all.
  - apply (sort_of_sorted (fun a b => Js.localeCompare_base (name a) (name b))).
    apply mediaFiles_sorted.
  - intros e He. apply mediaFiles_elem in He as (_ & Hd & Hm). now rewrite Hd, Hm.
Qed.

(** ** Classification and case *)

Lemma lower_ascii_dot c : Ascii.eqb (Js.lower_ascii c) "." = Ascii.eqb c ".".
Proof. destruct c as [[] [] [] [] [] [] [] []]; reflexivity. Qed.

Lemma lower_ascii_idem c : Js.lower_ascii (Js.lower_ascii c) = Js.lower_ascii c.
Proof. destruct c as [[] [] [] [] [] [] [] []]; reflexivity. Qed.

Lemma toLowerCase_idem s : Js.toLowerCase (Js.toLowerCase s) = Js.toLowerCase s.
Proof.
  induction s as [|c s IH]; simpl; [reflexivity|]. now rewrite lower_ascii_idem, IH.
Qed.

Lemma split_toLowerCase s :
  Js.split "." (Js.toLowerCase s) = map Js.toLowerCase (Js.split "." s).
Proof.
  induction s as [|c s IH]; simpl; [reflexivity|].
  rewrite lower_ascii_dot, IH.
  destruct (Ascii.eqb c "."); [reflexivity|].
  destruct (Js.split "." s); reflexivity.
Qed.

Lemma pop_map {A B} (f : A -> B) l : Js.pop (map f l) = f <$> Js.pop l.
Proof.
  unfold Js.pop. induction l as [|x [|y l] IH]; try reflexivity.
  exact IH.
Qed.

Lemma getExt_toLowerCase name : getExt (Js.toLowerCase name) = getExt name.
Proof.
  unfold getExt. rewrite split_toLowerCase, pop_map.
  destruct (Js.pop (Js.split "." name)) as [[|c e]|]; try reflexivity.
  change (Js.toLowerCase (Js.toLowerCase (String c e)) = Js.toLowerCase (String c e)).
  apply toLowerCase_idem.
Qed.

Lemma kindOf_by_ext n1 n2 : getExt n1 = getExt n2 -> kindOf n1 = kindOf n2.
Proof.
  intros H. unfold kindOf, isMediaFile, isHeic, isPdf, isVideo. now rewrite H.
Qed.

(** X4: the classification ignores case: two file names that are equal
    once put in lower case have the same extension and the same kind, in
    the grid, in the preview pane and in the viewer. *)
Theorem X4_classification_ignores_case (n1 n2 : string) :
  Js.toLowerCase n1 = Js.toLowerCase n2 ->
  getExt n1 = getExt n2 /\ kindOf n1 = kindOf n2 /\
  Main.isVideo n1 = Main.isVideo n2 /\ Main.isHeic n1 = Main.isHeic n2 /\
  Main.isPdf n1 = Main.isPdf n2 /\
  Viewer.isVideo n1 = Viewer.isVideo n2 /\ Viewer.isHeic n1 = Viewer.isHeic n2 /\
  Viewer.isPdf n1 = Viewer.isPdf n2.
Proof.
  intros H.
  assert (He : getExt n1 = getExt n2).
  { now rewrite <- (getExt_toLowerCase n1), <- (getExt_toLowerCase n2), H. }
  split; [exact He|]. split; [now apply kindOf_by_ext|].
  unfold Main.isVideo, Main.isHeic, Main.isPdf, Viewer.isVideo, Viewer.isHeic,
    Viewer.isPdf, Main.getExt, Viewer.getExt.
  unfold getExt in He. rewrite He. repeat split.
Qed.

Lemma X4_classification_ignores_case_witness :
  kindOf "HOLIDAY.Jpg" = kindOf "holiday.jpg" /\ kindOf "holiday.jpg" = Some Image.
Proof.
  destruct (X4_classification_ignores_case "HOLIDAY.Jpg" "holiday.jpg") as (_ & H & _).
  - reflexivity.
  - split; [exact H | vm_compute; reflexivity].
Defined.

(** ** The grid after loading *)

Lemma findCell_Some env files p i f :
  files !! i = Some f -> path f = p ->
  (forall j g, (j < i)%nat -> files !! j = Some g -> path g <> p) ->
  findCell (map (cellOf env) files) p = Some (i, cellOf env f).
Proof.
  intros Hi Hp Hfirst. unfold findCell. apply list_find_Some.
  split; [|split].
  - change (map (cellOf env) files) with (cellOf env <$> files).
    now rewrite list_lookup_fmap, Hi.
  - exact Hp.
  - intros j c Hj Hlt.
    change (map (cellOf env) files) with (cellOf env <$> files) in Hj.
    rewrite list_lookup_fmap in Hj.
    destruct (files !! j) as [g|] eqn:Hg; [|discriminate]. injection Hj as <-.
    simpl. now apply (Hfirst j g).
Qed.

(** The grid when the path to restore is the path of a listed file. *)
Lemma loadThumbnails_hit env ls folder es i f initial :
  invoke_available env = true ->
  ls folder = Some (listed es) ->
  mediaFiles es !! i = Some f ->
  pathToSelect initial = Some (path f) ->
  (forall j g, (j < i)%nat -> mediaFiles es !! j = Some g -> path g <> path f) ->
  loadThumbnails env ls folder true initial
  = {| grid := Cells (map (cellOf env) (mediaFiles es)) (Some i);
       paths := map path (mediaFiles es);
       onSelect_call :=
         if negb (String.eqb (path f) "") then Some (path f, name f) else None |}.
Proof.
  intros Hinv Hls Hi Hsel Hfirst. unfold loadThumbnails.
  rewrite Hinv, Hls. simpl.
  destruct (mediaFiles es) as [|f0 fs] eqn:Hfiles; [discriminate|].
  rewrite Hsel, (findCell_Some env (f0 :: fs) (path f) i f Hi eq_refl Hfirst).
  reflexivity.
Qed.

(** X5: when the path to restore, once trimmed, is the path of a file of
    the sequence, the first cell with that path is the one selected and the
    selection callback is called with that path and the name of the file. *)
Theorem X5_restore_selects_matching_file
    (env : Env) (ls : string -> option ListResult) (folder : string)
    (es : list Entry) (i : nat) (f : Entry) (initial : string) :
  invoke_available env = true ->
  ls folder = Some (listed es) ->
  mediaFiles es !! i = Some f ->
  Js.trim initial = path f -> path f <> "" ->
  (forall j g, (j < i)%nat -> mediaFiles es !! j = Some g -> path g <> path f) ->
  let r := loadThumbnails env ls folder true (Some initial) in
  grid r = Cells (map (cellOf env) (mediaFiles es)) (Some i) /\
  onSelect_call r = Some (path f, name f).
Proof.
  intros Hinv Hls Hi Htrim Hne Hfirst r.
  assert (Hsel : pathToSelect (Some initial) = Some (path f)).
  { simpl. rewrite Htrim. destruct (path f); [contradiction|reflexivity]. }
  unfold r. rewrite (loadThumbnails_hit env ls folder es i f _ Hinv Hls Hi Hsel Hfirst).
  split; [reflexivity|]. simpl.
  destruct (String.eqb_spec (path f) ""); [contradiction|reflexivity].
Qed.

Lemma X5_restore_selects_matching_file_witness :
  let r := loadThumbnails musicEnv photosOnly "C:\Photos" true (Some " C:\Photos\b.jpg ") in
  onSelect_call r = Some ("C:\Photos\b.jpg", "b.jpg").
Proof.
  destruct (X5_restore_selects_matching_file musicEnv photosOnly "C:\Photos"
              (scenarioFolder "C:\Photos\b.jpg" "C:\Photos\A.PNG"
                              "C:\Photos\c.mp4" "C:\Photos\d.txt")
              1 (file "b.jpg" "C:\Photos\b.jpg") " C:\Photos\b.jpg ") as [_ H].
  - reflexivity.
  - reflexivity.
  - vm_compute. reflexivity.
  - vm_compute. reflexivity.
  - discriminate.
  - intros [|j] g Hj Hg; [|lia]. vm_compute in Hg. injection Hg as <-. discriminate.
  - exact H.
Defined.

(** X6: whenever the grid shows cells, there is at least one; the path
    array handed to the viewer is aligned with the cells (its i-th path is
    the path of the i-th cell), so a double click on cell [i] opens the
    viewer on that cell's file with start index [i], and there is nothing
    to double click beyond the last cell; exactly one cell is selected, and
    if the selection callback was called, it was called with the path and
    the label of that cell. *)
Theorem X6_cells_paths_selection_aligned
    (env : Env) (ls : string -> option ListResult) (folder : string)
    (onSelect : bool) (initial : option string)
    (cells : list Cell) (sel : option nat) :
  let r := loadThumbnails env ls folder onSelect initial in
  grid r = Cells cells sel ->
  cells <> [] /\
  length (paths r) = length cells /\
  (forall i c, cells !! i = Some c ->
     paths r !! i = Some (data_path c) /\ dblclick r i = Some (paths r, i)) /\
  (forall i, (length cells <= i)%nat -> dblclick r i = None) /\
  (exists i c, sel = Some i /\ cells !! i = Some c /\
     (onSelect_call r = None \/ onSelect_call r = Some (data_path c, label c))).
Proof.
  intros r. unfold r, loadThumbnails.
  destruct (invoke_available env); simpl; [|discriminate].
  destruct (ls folder) as [res|]; [|discriminate].
  destruct (if ok res then entries res else None) as [es|]; [|discriminate].
  destruct (mediaFiles es) as [|f0 fs] eqn:Hfiles; [discriminate|].
  set (files := f0 :: fs). set (cs := map (cellOf env) files).
  match goal with |- context [Cells cs (fst <$> ?x)] => set (chosen := x) end.
  assert (Hchosen : exists i c, chosen = Some (i, c) /\ cs !! i = Some c).
  { unfold chosen. destruct (pathToSelect initial) as [p|].
    - destruct (findCell cs p) as [[i c]|] eqn:Hf.
      + exists i, c. split; [reflexivity|]. now apply list_find_Some in Hf as [? _].
      + exists 0%nat, (cellOf env f0). split; reflexivity.
    - exists 0%nat, (cellOf env f0). split; reflexivity. }
  destruct Hchosen as (i0 & c0 & Hc & Hi0). rewrite Hc. cbn [grid paths onSelect_call].
  intros [= <- <-].
  assert (Hlen : length (map path files) = length cs).
  { unfold cs. now rewrite !length_map. }
  split; [discriminate|]. split; [exact Hlen|]. split; [|split].
  - intros i c Hi. unfold cs in Hi.
    change (map (cellOf env) files) with (cellOf env <$> files) in Hi.
    rewrite list_lookup_fmap in Hi.
    destruct (files !! i) as [g|] eqn:Hg; [|discriminate]. injection Hi as <-.
    split.
    + change (map path files) with (path <$> files).
      now rewrite list_lookup_fmap, Hg.
    + unfold dblclick. cbn [grid paths]. apply lookup_lt_Some in Hg.
      rewrite decide_True; [reflexivity|]. unfold cs. now rewrite length_map.
  - intros i Hi. unfold dblclick. cbn [grid]. now rewrite decide_False by lia.
  - exists i0, c0. split; [reflexivity|]. split; [exact Hi0|].
    destruct (onSelect && negb (String.eqb (data_path c0) "")); auto.
Qed.

Lemma X6_cells_paths_selection_aligned_witness :
  let r := loadThumbnails musicEnv photosOnly "C:\Photos" true None in
  paths r !! 2%nat = Some "C:\Photos\c.mp4" /\
  dblclick r 2 = Some (paths r, 2%nat).
Proof.
  intros r.
  destruct (X6_cells_paths_selection_aligned musicEnv photosOnly "C:\Photos" true None
              (map (cellOf musicEnv)
                 [file "A.PNG" "C:\Photos\A.PNG"; file "b.jpg" "C:\Photos\b.jpg";
                  file "c.mp4" "C:\Photos\c.mp4"]) (Some 0%nat))
    as (_ & _ & H & _).
  - vm_compute. reflexivity.
  - apply (H 2%nat (cellOf musicEnv (file "c.mp4" "C:\Photos\c.mp4"))). reflexivity.
Defined.

(** X7: the ways the grid ends in a single message. Outside Tauri, when
    the listing request is rejected, when its answer is not ok or carries
    no entries (the error text of the answer is shown, or a default), and
    when no entry of the listing is a file of a supported kind, the grid
    shows the corresponding text, no cell, hands no path to the viewer and
    the selection callback is not called, whatever path was to be
    restored. *)
Theorem X7_grid_message_cases
    (env : Env) (ls : string -> option ListResult) (folder : string)
    (onSelect : bool) (initial : option string) :
  let r := loadThumbnails env ls folder onSelect initial in
  (invoke_available env = false -> r = message "Tauri API not available") /\
  (invoke_available env = true -> ls folder = None ->
   r = message "Error loading folder") /\
  (forall res, invoke_available env = true -> ls folder = Some res ->
   ok res = false \/ entries res = None ->
   r = message (Js.or_else (error res) "Could not read folder")) /\
  (forall es, invoke_available env = true -> ls folder = Some (listed es) ->
   (forall e, e ∈ es -> shownInGrid e = false) ->
   r = message "No images or videos in this folder") /\
  (forall text, grid r = Message text ->
   paths r = [] /\ onSelect_call r = None /\ forall i, dblclick r i = None).
Proof.
  intros r. unfold r, loadThumbnails. split; [|split; [|split; [|split]]].
  - now intros ->.
  - now intros -> ->.
  - intros res -> -> Hbad. simpl.
    destruct Hbad as [-> | ->]; [reflexivity|]. now destruct (ok res).
  - intros es -> -> Hnone. simpl.
    assert (Hempty : mediaFiles es = []).
    { destruct (mediaFiles es) as [|f fs] eqn:Hf; [reflexivity|].
      assert (Hin : f ∈ mediaFiles es) by (rewrite Hf; constructor).
      apply mediaFiles_elem in Hin as (Hin & Hd & Hm).
      specialize (Hnone f Hin). unfold shownInGrid in Hnone.
      rewrite Hd, Hm in Hnone. discriminate. }
    now rewrite Hempty.
  - intros text.
    destruct (invoke_available env); simpl; [|intros _; repeat split].
    destruct (ls folder) as [res|]; [|intros _; repeat split].
    destruct (if ok res then entries res else None) as [es|];
      [|intros _; repeat split].
    destruct (mediaFiles es); [intros _; repeat split|discriminate].
Qed.

Lemma X7_grid_message_cases_witness :
  loadThumbnails musicEnv
    (fun _ => Some (listed [file "notes.txt" "C:\Docs\notes.txt";
                            {| name := "sub.jpg"; path := "C:\Docs\sub.jpg"; is_dir := true |}]))
    "C:\Docs" true (Some "C:\Docs\notes.txt")
  = message "No images or videos in this folder".
Proof.
  destruct (X7_grid_message_cases musicEnv
              (fun _ => Some (listed [file "notes.txt" "C:\Docs\notes.txt";
                  {| name := "sub.jpg"; path := "C:\Docs\sub.jpg"; is_dir := true |}]))
              "C:\Docs" true (Some "C:\Docs\notes.txt")) as (_ & _ & _ & H & _).
  apply (H _ eq_refl eq_refl).
  intros e He. apply elem_of_cons in He as [-> | He]; [reflexivity|].
  apply list_elem_of_singleton in He as ->. reflexivity.
Defined.

(** ** The loaders at their edges *)

Lemma run_add a b env path name st :
  EventLoop.run (a + b) env path name st
  = EventLoop.run b env path name (EventLoop.run a env path name st).
Proof.
  revert st. induction a as [|a IH]; intros st; [reflexivity|].
  simpl. apply IH.
Qed.

Lemma invocations_show_text st t : invocations (show_text t st) = invocations st.
Proof.
  unfold invocations, show_text. simpl. rewrite List.filter_app, length_app. simpl. lia.
Qed.

Lemma step_closing env path name st :
  closing (onerror st) ->
  loading (EventLoop.step env path name st) = false /\
  invocations (EventLoop.step env path name st) = invocations st.
Proof.
  intros Hh. unfold EventLoop.step.
  destruct (loading st) eqn:Hl; [|auto].
  destruct (src st) as [u|]; [|split; reflexivity].
  destruct (webview_loads env u); [split; reflexivity|].
  unfold EventLoop.fire. cbn [onerror failed].
  destruct Hh as [-> | [-> | ->]]; [split; reflexivity| |];
    unfold Main.setPlaceholder, Main.setVideoPlaceholder;
    rewrite invocations_show_text; split; reflexivity.
Qed.

Lemma step_preview_image env path name st :
  onerror st = PreviewImgError ->
  let st' := EventLoop.step env path name st in
  (invocations st' <= S (invocations st))%nat /\
  (loading st' = false \/ closing (onerror st')).
Proof.
  intros Hh. unfold EventLoop.step.
  destruct (loading st) eqn:Hl; [|split; [lia|auto]].
  destruct (src st) as [u|]; [|split; [simpl; unfold invocations; simpl; lia|auto]].
  destruct (webview_loads env u);
    [split; [unfold invocations; simpl; lia|auto]|].
  unfold EventLoop.fire. cbn [onerror failed]. rewrite Hh.
  unfold Main.imgOnError, Main.setPlaceholder.
  destruct (invoke_available env); simpl negb; cbv iota.
  - destruct (read_file_as_data_url env path) as [d|].
    + split; [|right; right; left; reflexivity].
      change (invocations (set_src d (emit (Invoke "read_file_as_data_url" path) (failed st)))
              <= S (invocations st))%nat.
      rewrite invocations_set_src, invocations_emit_invoke.
      unfold invocations. simpl. lia.
    + rewrite invocations_show_text, invocations_emit_invoke.
      split; [unfold invocations; simpl; lia|left; reflexivity].
  - rewrite invocations_show_text.
    split; [unfold invocations; simpl; lia|left; reflexivity].
Qed.

Lemma showPreview_start env path name :
  let st := Main.showPreview env path name in
  invocations st = 0%nat /\
  (closing (onerror st) \/ onerror st = PreviewImgError).
Proof.
  unfold Main.showPreview, Main.setVideoPlaceholder, Main.setPlaceholder.
  destruct (Main.isHeic name); [split; [reflexivity|left; left; reflexivity]|].
  destruct (Main.isPdf name); [split; [reflexivity|left; left; reflexivity]|].
  destruct (Main.isVideo name).
  - destruct (convertFileSrc env) as [conv|];
      [|split; [reflexivity|left; left; reflexivity]].
    destruct (conv path);
      split; try reflexivity; left; [right; right|left]; reflexivity.
  - destruct (convertFileSrc env) as [conv|]; [|split; [reflexivity|now right]].
    destruct (conv path); split; try reflexivity; [now right|left; left; reflexivity].
Qed.

Lemma preview_two_reports env path name :
  let st := previewLoad 2 env path name in
  loading st = false /\ (invocations st <= 1)%nat.
Proof.
  unfold previewLoad. cbn [EventLoop.run].
  destruct (showPreview_start env path name) as [H0 Hh].
  set (st0 := Main.showPreview env path name) in *.
  destruct Hh as [Hh | Hh].
  - destruct (step_closing env path name st0 Hh) as [Hl Hn].
    assert (Hs : EventLoop.step env path name (EventLoop.step env path name st0)
                 = EventLoop.step env path name st0).
    { unfold EventLoop.step at 1. now rewrite Hl. }
    rewrite Hs. split; [exact Hl|lia].
  - destruct (step_preview_image env path name st0 Hh) as [Hn Hor].
    destruct Hor as [Hl | Hc].
    + assert (Hs : EventLoop.step env path name (EventLoop.step env path name st0)
                   = EventLoop.step env path name st0).
      { unfold EventLoop.step at 1. now rewrite Hl. }
      rewrite Hs. split; [exact Hl|lia].
    + destruct (step_closing env path name _ Hc) as [Hl Hn'].
      split; [exact Hl|lia].
Qed.

(** X8: the preview pane always comes to rest. For every file and every
    environment, after two reports of the webview nothing is in flight any
    more, whatever follows changes nothing, and the backend was asked at
    most once. *)
Theorem X8_preview_comes_to_rest (env : Env) (path name : string) (fuel : nat) :
  let st := previewLoad (2 + fuel) env path name in
  st = previewLoad 2 env path name /\
  loading st = false /\ (invocations st <= 1)%nat.
Proof.
  intros st. destruct (preview_two_reports env path name) as [Hl Hn].
  assert (Hst : st = previewLoad 2 env path name).
  { unfold st, previewLoad. rewrite run_add. now apply run_settled. }
  rewrite Hst. auto.
Qed.

(** X9: the viewer and the grid do not come to rest on a file whose asset
    reference fails to load and whose data representation, though the
    backend returns it, fails to load as well: the error handler stays
    installed, and after n+1 reports of the webview the backend has been
    asked n+1 times. *)
Theorem X9_viewer_and_grid_ask_again
    (env : Env) (path name url d : string) (conv : string -> option string)
    (fuel : nat) :
  kindOf name = Some Image ->
  convertFileSrc env = Some conv -> conv path = Some url ->
  invoke_available env = true ->
  webview_loads env url = false ->
  read_file_as_data_url env path = Some d ->
  webview_loads env d = false ->
  (exists st, viewerLoad (S fuel) env path name = Some st /\
              invocations st = S fuel /\ loading st = true) /\
  invocations (gridLoad (S fuel) env (file name path)) = S fuel /\
  loading (gridLoad (S fuel) env (file name path)) = true.
Proof.
  intros Hk Hc Hu Hi Hl Hr Hd.
  assert (Hkeep : forall n st, retrying d st ->
            retrying d (EventLoop.run n env path name st)).
  { induction n as [|n IH]; intros st Hst; [exact Hst|].
    rewrite run_step. apply IH.
    now apply (retry_step env path name d Hi Hr Hd). }
  assert (Hgo : forall h, h = ViewerImgError \/ h = GridImgError ->
            EventLoop.step env path name (assetAssigned path url h)
            = set_src d (decodeRequested path url h) ->
            let st := EventLoop.run (S fuel) env path name (assetAssigned path url h) in
            invocations st = S fuel /\ loading st = true).
  { intros h Hh Hstep st. unfold st. rewrite run_step, Hstep.
    assert (Hre : retrying d (set_src d (decodeRequested path url h))).
    { repeat split; auto. }
    split.
    - rewrite (retry_run env path name d Hi Hr Hd _ _ Hre).
      unfold decodeRequested.
      rewrite invocations_set_src, invocations_emit_invoke. unfold invocations.
      simpl. lia.
    - now destruct (Hkeep fuel _ Hre) as (_ & ? & _). }
  pose proof (viewer_decoded env path name url conv Hk Hc Hu Hi d Hl Hr) as Hv.
  pose proof (grid_decoded env path name url conv Hk Hc Hu Hi d Hl Hr) as Hg.
  unfold viewerLoad, gridLoad in *.
  rewrite (viewer_start env path name url conv Hk Hc Hu) in *.
  rewrite (grid_start env path name url conv Hk Hc Hu) in *.
  cbn [fmap option_fmap option_map Viewer.content ThumbnailGrid.path
       ThumbnailGrid.name file EventLoop.run] in Hv, Hg.
  cbn [fmap option_fmap option_map Viewer.content ThumbnailGrid.path
       ThumbnailGrid.name file].
  injection Hv as Hv.
  split.
  - eexists. split; [reflexivity|]. apply Hgo; auto.
  - apply Hgo; auto.
Qed.

Lemma X9_viewer_and_grid_ask_again_witness :
  invocations (gridLoad 5 corruptEnv (file "a.jpg" "C:\Photos\a.jpg")) = 5%nat /\
  loading (gridLoad 5 corruptEnv (file "a.jpg" "C:\Photos\a.jpg")) = true.
Proof.
  destruct (X9_viewer_and_grid_ask_again corruptEnv "C:\Photos\a.jpg" "a.jpg"
              (assetUrl "C:\Photos\a.jpg") "data:image;base64,C:\Photos\a.jpg"
              (fun p => Some (assetUrl p)) 4) as (_ & H).
  - vm_compute. reflexivity.
  - reflexivity.
  - reflexivity.
  - reflexivity.
  - reflexivity.
  - reflexivity.
  - reflexivity.
  - exact H.
Defined.

(** The log only grows. *)
Lemma step_log_grows env path name st :
  exists more, log (EventLoop.step env path name st) = (log st ++ more)%list.
Proof.
  unfold EventLoop.step.
  destruct (loading st); [|exists []; now rewrite app_nil_r].
  destruct (src st) as [u|]; [|exists []; simpl; now rewrite app_nil_r].
  destruct (webview_loads env u); [exists []; simpl; now rewrite app_nil_r|].
  unfold EventLoop.fire, Main.imgOnError, Main.setPlaceholder,
    Main.setVideoPlaceholder, Viewer.imgOnError, imgOnError.
  cbn [onerror failed].
  destruct (onerror st); simpl;
    try (destruct (invoke_available env); simpl);
    try (destruct (read_file_as_data_url env path); simpl);
    first [ exists []; simpl; now rewrite app_nil_r
          | rewrite <- ?app_assoc; eexists; reflexivity ].
Qed.

Lemma run_log_grows fuel env path name st :
  exists more, log (EventLoop.run fuel env path name st) = (log st ++ more)%list.
Proof.
  revert st. induction fuel as [|fuel IH]; intros st.
  - exists []. simpl. now rewrite app_nil_r.
  - rewrite run_step. destruct (IH (EventLoop.step env path name st)) as [m1 H1].
    destruct (step_log_grows env path name st) as [m2 H2].
    exists (m2 ++ m1)%list. now rewrite H1, H2, app_assoc.
Qed.

(** X10: when [convertFileSrc] throws for an image, the three scripts part
    ways. The preview pane and the viewer show the file name at once and
    never ask the backend. The grid assigns an empty source instead; the
    webview reports that as an error, and the grid then asks the backend
    for the data representation. *)
Theorem X10_throwing_asset_reference
    (env : Env) (path name : string) (conv : string -> option string) (fuel : nat) :
  kindOf name = Some Image ->
  convertFileSrc env = Some conv -> conv path = None ->
  invoke_available env = true ->
  previewLoad fuel env path name = show_text name (emit (AssetRef path) fresh) /\
  viewerLoad fuel env path name = Some (show_text name (emit (AssetRef path) fresh)) /\
  ends (previewLoad fuel env path name) (Text name) 0 /\
  (exists rest,
     log (gridLoad (S fuel) env (file name path))
     = (AssetRef path :: SetSrc "" :: Invoke "read_file_as_data_url" path :: rest)).
Proof.
  intros Hk Hc Hu Hi.
  destruct (image_flags name Hk) as (M1 & M2 & M3 & V1 & V2 & V3 & G1 & G2 & G3 & Hn).
  assert (Hp : previewLoad fuel env path name = show_text name (emit (AssetRef path) fresh)).
  { unfold previewLoad, Main.showPreview. rewrite M1, M2, M3, Hc, Hu.
    now apply run_settled. }
  split; [exact Hp|]. split; [|split].
  - unfold viewerLoad, Viewer.showImage. rewrite V1, V2, V3, Hc, Hu.
    cbn [fmap option_fmap option_map Viewer.content Viewer.setPlaceholder].
    rewrite Hn. f_equal. now apply run_settled.
  - rewrite Hp. repeat split.
  - unfold gridLoad, thumbnail, file. cbn [ThumbnailGrid.name ThumbnailGrid.path].
    rewrite G1, G2, G3, Hc, Hu. rewrite run_step.
    set (st0 := set_onerror GridImgError (set_src "" (emit (AssetRef path) fresh))).
    assert (Hstep : exists tail,
              log (EventLoop.step env path name st0)
              = (AssetRef path :: SetSrc "" :: Invoke "read_file_as_data_url" path :: tail)).
    { unfold EventLoop.step, EventLoop.fire, imgOnError. simpl. rewrite Hi.
      destruct (read_file_as_data_url env path); eexists; reflexivity. }
    destruct Hstep as [tail Htail].
    destruct (run_log_grows fuel env path name (EventLoop.step env path name st0))
      as [more Hmore].
    rewrite Hmore, Htail. eexists. simpl. reflexivity.
Qed.

Lemma X10_throwing_asset_reference_witness :
  ends (previewLoad 3 throwingEnv "C:\Photos\a.jpg" "a.jpg") (Text "a.jpg") 0 /\
  invocations (gridLoad 3 throwingEnv (file "a.jpg" "C:\Photos\a.jpg")) = 1%nat.
Proof.
  destruct (X10_throwing_asset_reference throwingEnv "C:\Photos\a.jpg" "a.jpg"
              (fun _ => None) 3) as (_ & _ & H & _).
  - vm_compute. reflexivity.
  - reflexivity.
  - reflexivity.
  - reflexivity.
  - split; [exact H | vm_compute; reflexivity].
Defined.

(** ** Paths *)

Lemma lacks_cons c d s : lacks c (String d s) <-> Ascii.eqb d c = false /\ lacks c s.
Proof.
  unfold lacks. simpl. destruct (Js.lastIndexOf c s); [split; [discriminate|intros [_ ?]; discriminate]|].
  destruct (Ascii.eqb d c); split; auto; try discriminate. intros [? _]. discriminate.
Qed.

Lemma replaceAll_lacks x y s : lacks x s -> Js.replaceAll x y s = s.
Proof.
  induction s as [|c s IH]; intros H; [reflexivity|].
  apply lacks_cons in H as [Hc Hs]. simpl. now rewrite Hc, IH.
Qed.

Lemma replaceAll_app x y a b :
  Js.replaceAll x y (a +:+ b) = Js.replaceAll x y a +:+ Js.replaceAll x y b.
Proof. induction a as [|c a IH]; simpl; [reflexivity|]. now rewrite IH. Qed.

Lemma replaceAll_length x y s : String.length (Js.replaceAll x y s) = String.length s.
Proof. induction s as [|c s IH]; simpl; auto. Qed.

Lemma lastIndexOf_sep x a b :
  lacks x b -> Js.lastIndexOf x (a +:+ String x b) = Some (String.length a).
Proof.
  intros Hb. induction a as [|c a IH]; simpl.
  - unfold lacks in Hb. now rewrite Hb, Ascii.eqb_refl.
  - now rewrite IH.
Qed.

Lemma substring_all s : String.substring 0 (String.length s) s = s.
Proof. induction s as [|c s IH]; simpl; [reflexivity|]. now rewrite IH. Qed.

Lemma slice_to_app a b : Js.slice_to (String.length a) (a +:+ b) = a.
Proof.
  unfold Js.slice_to. induction a as [|c a IH]; simpl.
  - now destruct b.
  - now rewrite IH.
Qed.

Lemma length_app_sep a x b :
  String.length (a +:+ String x b) = (String.length a + 1 + String.length b)%nat.
Proof. induction a as [|c a IH]; simpl; [reflexivity|]. rewrite IH. lia. Qed.

Lemma slice_from_app a x b :
  Js.slice_from (String.length a + 1) (a +:+ String x b) = b.
Proof.
  unfold Js.slice_from. rewrite length_app_sep.
  replace (String.length a + 1 + String.length b - (String.length a + 1))%nat
    with (String.length b) by lia.
  induction a as [|c a IH]; simpl; [apply substring_all|exact IH].
Qed.

(** X11: a path made of a folder, a backslash and a file name splits back
    into the two: [getName] of the viewer gives the file name, and
    [dirname] of the main window gives the folder, or the drive root
    (C:\ for C:) when the folder is a bare drive. The path has no white
    space around it, the folder is written with backslashes and the name
    holds no separator. *)
Theorem X11_path_splits_into_folder_and_name (folder name : string) :
  let p := folder +:+ String Js.backslash name in
  Js.trim p = p ->
  lacks Js.slash folder -> lacks Js.slash name -> lacks Js.backslash name ->
  Main.dirname p
  = (if isDrive folder then folder +:+ String Js.backslash "" else folder) /\
  Viewer.getName p = name.
Proof.
  intros p Htrim Hf Hn1 Hn2. split.
  - unfold Main.dirname.
    assert (Hp : exists c r, p = String c r).
    { unfold p. destruct folder; simpl; eauto. }
    destruct Hp as (c & r & Hcr). rewrite Hcr. rewrite <- Hcr. rewrite Htrim.
    assert (Hs : Js.replaceAll Js.slash Js.backslash p = p).
    { apply replaceAll_lacks. unfold p, lacks in *.
      clear Htrim Hcr. induction folder as [|d folder IH]; simpl.
      - rewrite Hn1. reflexivity.
      - apply (proj1 (lacks_cons _ _ _)) in Hf as [Hd Hf].
        unfold lacks in Hf. rewrite (IH Hf). now rewrite Hd. }
    rewrite Hs. unfold p at 1. rewrite (lastIndexOf_sep _ _ _ Hn2).
    unfold p. rewrite slice_to_app. reflexivity.
  - assert (Hr : Js.replaceAll Js.backslash Js.slash p
                 = Js.replaceAll Js.backslash Js.slash folder +:+ String Js.slash name).
    { unfold p. rewrite replaceAll_app. f_equal. cbn [Js.replaceAll].
      rewrite Ascii.eqb_refl. f_equal. now apply replaceAll_lacks. }
    unfold Viewer.getName. rewrite Hr, (lastIndexOf_sep _ _ _ Hn1).
    apply slice_from_app.
Qed.

Lemma X11_path_splits_into_folder_and_name_witness :
  (Main.dirname "C:\Photos\2024\a.jpg" = "C:\Photos\2024" /\
   Viewer.getName "C:\Photos\2024\a.jpg" = "a.jpg") /\
  Main.dirname "C:\a.jpg" = "C:\".
Proof.
  split.
  - apply (X11_path_splits_into_folder_and_name "C:\Photos\2024" "a.jpg");
      reflexivity.
  - apply (X11_path_splits_into_folder_and_name "C:" "a.jpg"); reflexivity.
Defined.

(** ** Persistence *)

Lemma trimStart_head s :
  Js.trimStart s = "" \/
  exists c r, Js.trimStart s = String c r /\ Js.is_space c = false.
Proof.
  induction s as [|c s IH]; simpl; [now left|].
  destruct (Js.is_space c) eqn:E; [exact IH|]. right. eauto.
Qed.

Lemma trimEnd_idem s : Js.trimEnd (Js.trimEnd s) = Js.trimEnd s.
Proof.
  induction s as [|c s IH]; [reflexivity|]. cbn [Js.trimEnd].
  destruct (Js.trimEnd s) as [|d r] eqn:E.
  - destruct (Js.is_space c) eqn:Ec; [reflexivity|].
    cbn [Js.trimEnd]. now rewrite Ec.
  - cbn [Js.trimEnd] in *. cbn [Js.trimEnd]. rewrite IH. reflexivity.
Qed.

Lemma trimEnd_keeps_head c r :
  Js.is_space c = false -> exists r', Js.trimEnd (String c r) = String c r'.
Proof.
  intros Hc. cbn [Js.trimEnd]. destruct (Js.trimEnd r); [rewrite Hc|]; eauto.
Qed.

(** [trim] removes all there is to remove. *)
Lemma trim_idem s : Js.trim (Js.trim s) = Js.trim s.
Proof.
  unfold Js.trim. destruct (trimStart_head s) as [-> | (c & r & -> & Hc)];
    [reflexivity|].
  destruct (trimEnd_keeps_head c r Hc) as [r' Hr]. rewrite Hr.
  cbn [Js.trimStart]. rewrite Hc. rewrite <- Hr. apply trimEnd_idem.
Qed.

(** X12: what [persist] writes is what the next start reads. A write is
    made only inside Tauri, under a non-empty key and with a value that is
    not blank; the value written is the trimmed one, and the normalisation
    the start-up applies to a value read back leaves it exactly as it was
    written. A blank value is never written. *)
Theorem X12_persisted_value_round_trip
    (env : Env) (key : string) (value : option string) (k v : string) :
  Main.persist env key value = Some (k, v) ->
  k = key /\ key <> "" /\ invoke_available env = true /\
  (exists x, value = Some x /\ v = Js.trim x) /\
  v <> "" /\ Main.persisted (Some v) = Some v.
Proof.
  unfold Main.persist. destruct key as [|c key]; [discriminate|].
  destruct value as [x|]; [|discriminate].
  destruct (Js.trim x) as [|d t] eqn:Ht; [discriminate|].
  destruct (invoke_available env); [|discriminate].
  intros [= <- <-]. repeat split; try discriminate.
  - exists x. now rewrite Ht.
  - unfold Main.persisted. rewrite <- Ht, trim_idem, Ht. reflexivity.
Qed.

Lemma X12_persisted_value_round_trip_witness :
  Main.persist musicEnv "last_folder" (Some "  C:\Photos ") = Some ("last_folder", "C:\Photos") /\
  Main.persisted (Some "C:\Photos") = Some "C:\Photos".
Proof.
  split; [reflexivity|].
  apply (X12_persisted_value_round_trip musicEnv "last_folder" (Some "  C:\Photos ")
           "last_folder" "C:\Photos").
  reflexivity.
Defined.



Lemma substring_head n s :
  (n <= String.length s)%nat ->
  String.length (String.substring 0 n s) = n /\
  exists rest, s = String.substring 0 n s +:+ rest.
Proof.
  revert s. induction n as [|n IH]; intros [|c s] H; simpl in *; try lia.
  - split; [reflexivity|]. exists "". reflexivity.
  - split; [reflexivity|]. exists (String c s). reflexivity.
  - destruct (IH s) as [Hl [rest Hr]]; [lia|]. split; [now rewrite Hl|].
    exists rest.
    change (String c s = String c (String.substring 0 n s +:+ rest)).
    f_equal. exact Hr.
Qed.

Lemma length_append a b :
  String.length (a +:+ b) = (String.length a + String.length b)%nat.
Proof. induction a as [|c a IH]; simpl; auto. Qed.

(** X14: the help panel never shows more than 80 characters of a stored
    value: a value of at most 80 characters is shown whole, and a longer
    one is shown as its first 77 characters followed by three dots, which
    makes 80 characters. *)
Theorem X14_help_value_at_most_80 (value : string) :
  (String.length (Main.helpValue value) <= 80)%nat /\
  ((String.length value <= 80)%nat -> Main.helpValue value = value) /\
  ((80 < String.length value)%nat ->
   exists head rest,
     value = head +:+ rest /\ String.length head = 77%nat /\
     Main.helpValue value = head +:+ "..." /\
     String.length (Main.helpValue value) = 80%nat).
Proof.
  unfold Main.helpValue, Js.slice_to.
  destruct (80 <? String.length value)%nat eqn:E.
  - apply Nat.ltb_lt in E.
    destruct (substring_head 77 value) as [Hl [rest Hr]]; [lia|].
    rewrite length_append, Hl. simpl.
    split; [lia|]. split; [lia|]. intros _.
    exists (String.substring 0 77 value), rest.
    split; [exact Hr|]. split; [exact Hl|]. split; [reflexivity|lia].
  - apply Nat.ltb_ge in E. split; [lia|]. split; [reflexivity|lia].
Qed.

Lemma X14_help_value_at_most_80_witness :
  Main.helpValue "C:\Photos" = "C:\Photos" /\
  exists head rest,
    "C:\Users\someone\Pictures\Holidays\2024\Summer\Beach\Sunset\IMG_20240812_193455_HDR.jpg"
    = head +:+ rest /\ String.length head = 77%nat /\
    Main.helpValue
      "C:\Users\someone\Pictures\Holidays\2024\Summer\Beach\Sunset\IMG_20240812_193455_HDR.jpg"
    = head +:+ "...".
Proof.
  split.
  - destruct (X14_help_value_at_most_80 "C:\Photos") as (_ & H & _).
    apply H. simpl. lia.
  - destruct (X14_help_value_at_most_80
      "C:\Users\someone\Pictures\Holidays\2024\Summer\Beach\Sunset\IMG_20240812_193455_HDR.jpg")
      as (_ & _ & H).
    destruct H as (head & rest & H1 & H2 & H3 & _); [simpl; lia|].
    exists head, rest. auto.
Defined.

(** ** The slideshow *)

Lemma validSeconds_range n z :
  Viewer.validSeconds n = Some z -> n = Some z /\ (1 <= z <= 3600)%Z.
Proof.
  unfold Viewer.validSeconds. destruct n as [y|]; [|discriminate].
  destruct (1 <=? y)%Z eqn:E1; [|discriminate].
  destruct (y <=? 3600)%Z eqn:E2; [|discriminate]. simpl.
  intros [= <-]. split; [reflexivity|]. lia.
Qed.

Lemma withInterval_ok n s :
  (1 <= n <= 3600)%Z -> Viewer.slideshowTimer s = None -> slideshow_ok s ->
  slideshow_ok (Viewer.withInterval (n * 1000) s).
Proof.
  intros Hn Ht [H1 H2 H3 H4 H5].
  split; simpl; rewrite ?Ht; try lia; try discriminate;
    try (now rewrite Z.mod_mul); auto.
Qed.

Lemma toggleSlideshow_ok s : slideshow_ok s -> slideshow_ok (Viewer.toggleSlideshow s).
Proof.
  intros [H1 H2 H3 H4 H5]. unfold Viewer.toggleSlideshow, Viewer.startSlideshow.
  destruct (Viewer.slideshowTimer s) eqn:Ht; split; simpl; auto; try discriminate;
    try (intros t [= <-]; reflexivity).
Qed.

Lemma restoreInterval_ok val s :
  Viewer.slideshowTimer s = None -> slideshow_ok s ->
  slideshow_ok (Viewer.restoreInterval val s) /\
  Viewer.slideshowTimer (Viewer.restoreInterval val s) = None.
Proof.
  intros Ht Hok. unfold Viewer.restoreInterval.
  destruct val as [[|c v]|]; auto.
  destruct (Viewer.validSeconds _) as [n|] eqn:E; auto.
  apply validSeconds_range in E as [_ Hn]. split; [|exact Ht].
  now apply withInterval_ok.
Qed.

Lemma configure_ok env answer s :
  slideshow_ok s -> slideshow_ok (fst (Viewer.configure env answer s)).
Proof.
  intros Hok. unfold Viewer.configure.
  destruct answer as [interval|]; [|exact Hok].
  destruct (Viewer.validSeconds _) as [n|] eqn:E; [|exact Hok].
  apply validSeconds_range in E as [_ Hn]. cbn [fst Viewer.withInterval Viewer.slideshowTimer].
  destruct Hok as [H1 H2 H3 H4 H5].
  destruct (Viewer.slideshowTimer s) eqn:Ht.
  - unfold Viewer.startSlideshow, Viewer.stopSlideshow. simpl.
    split; simpl; try lia; try discriminate; try (now rewrite Z.mod_mul);
      try (intros t [= <-]; reflexivity); auto.
  - split; simpl; rewrite ?Ht; try lia; try discriminate;
      try (now rewrite Z.mod_mul); auto.
Qed.

Lemma controls_ok env cs s : slideshow_ok s -> slideshow_ok (Viewer.controls env cs s).
Proof.
  revert s. induction cs as [|c cs IH]; intros s Hok; [exact Hok|].
  apply IH. destruct c; [now apply toggleSlideshow_ok | now apply configure_ok].
Qed.

Lemma noSlideshow_ok : slideshow_ok Viewer.noSlideshow.
Proof. split; simpl; auto; try lia; try discriminate. Qed.

(** X15: whatever value the start reads back for the interval and whatever
    the user then does with the slideshow button and the configuration
    prompt, the interval stays a whole number of seconds between 1 and 3600
    (3 seconds unless a valid value replaced it), a running timer always
    ticks at the configured interval, because a new interval restarts it,
    and the button reads Slideshow OFF exactly while a timer runs. *)
Theorem X15_slideshow_invariant
    (env : Env) (val : option string) (cs : list Viewer.Control) :
  let s := Viewer.controls env cs (Viewer.restoreInterval val Viewer.noSlideshow) in
  (1000 <= Viewer.slideshowIntervalMs s <= 3600000)%Z /\
  (Viewer.slideshowIntervalMs s mod 1000 = 0)%Z /\
  (forall t, Viewer.slideshowTimer s = Some t ->
     t = Viewer.slideshowIntervalMs s /\
     Viewer.slideshowButton s = Some "Slideshow OFF") /\
  (Viewer.slideshowTimer s = None ->
     Viewer.slideshowButton s <> Some "Slideshow OFF").
Proof.
  intros s.
  destruct (restoreInterval_ok val Viewer.noSlideshow eq_refl noSlideshow_ok) as [H0 _].
  destruct (controls_ok env cs _ H0) as [H1 H2 H3 H4 H5]. fold s in H1, H2, H3, H4, H5.
  split; [exact H1|]. split; [exact H2|]. split.
  - intros t Ht. split; [now apply H3 | now apply (H4 t)].
  - intros Hn. destruct (H5 Hn) as [-> | ->]; discriminate.
Qed.

Lemma X15_slideshow_invariant_witness :
  let s := Viewer.controls musicEnv
             [Viewer.ClickSlideshow; Viewer.ClickConfig (Some " 5 seconds")]
             (Viewer.restoreInterval (Some "10") Viewer.noSlideshow) in
  Viewer.slideshowTimer s = Some 5000%Z /\
  Viewer.slideshowIntervalMs s = 5000%Z /\
  Viewer.slideshowButton s = Some "Slideshow OFF".
Proof.
  intros s.
  destruct (X15_slideshow_invariant musicEnv (Some "10")
              [Viewer.ClickSlideshow; Viewer.ClickConfig (Some " 5 seconds")])
    as (_ & _ & H & _).
  fold s in H. assert (Ht : Viewer.slideshowTimer s = Some 5000%Z) by reflexivity.
  destruct (H 5000%Z Ht) as [Hi Hb]. auto.
Defined.

Lemma digits_print u acc :
  Js.digits acc (NilEmpty.string_of_uint u) = Nat.of_uint_acc u acc.
Proof.
  revert acc. induction u; intros acc;
    cbn [NilEmpty.string_of_uint Nat.of_uint_acc Js.digits];
    rewrite ?Nat.tail_mul_spec; try reflexivity;
    match goal with
    | |- context [Js.digit ?c] =>
        let v := eval vm_compute in (Js.digit c) in change (Js.digit c) with v
    end;
    cbv iota; rewrite IHu; f_equal; lia.
Qed.

(** Reading a printed number gives the number. *)
Lemma parseInt10_print n :
  (1 <= n)%nat -> Js.parseInt10 (Js.numberToString n) = Some (Z.of_nat n).
Proof.
  intros Hn. unfold Js.numberToString.
  pose proof (DecimalNat.Unsigned.of_to n) as Hof.
  assert (Hd : Js.digits 0 (NilEmpty.string_of_uint (Nat.to_uint n)) = n).
  { rewrite digits_print. exact Hof. }
  remember (Nat.to_uint n) as d eqn:E. clear E.
  destruct d as [|u|u|u|u|u|u|u|u|u|u];
    [vm_compute in Hof; lia| | | | | | | | | |];
    unfold Js.parseInt10;
    cbn [NilEmpty.string_of_uint Js.trimStart] in *;
    match goal with
    | |- context [Js.is_space ?c] =>
        let v := eval vm_compute in (Js.is_space c) in change (Js.is_space c) with v
    end;
    cbv iota;
    match goal with
    | |- context [Js.digit ?c] =>
        let v := eval vm_compute in (Js.digit c) in change (Js.digit c) with v
    end;
    cbv iota; now rewrite Hd.
Qed.

(** X16: the interval saved by the configuration prompt is the interval
    the next start restores: whenever the prompt leads to a write to the
    state store, the key is slideshow_interval_seconds and reading the
    written value back at the start sets the very interval the prompt
    set. *)
Theorem X16_interval_round_trip
    (env : Env) (answer : option string) (s s' : Viewer.Slideshow) (k v : string) :
  Viewer.configure env answer s = (s', Some (k, v)) ->
  k = "slideshow_interval_seconds" /\
  Viewer.slideshowIntervalMs (Viewer.restoreInterval (Some v) Viewer.noSlideshow)
  = Viewer.slideshowIntervalMs s'.
Proof.
  unfold Viewer.configure. destruct answer as [interval|]; [|discriminate].
  destruct (Viewer.validSeconds (Js.parseInt10 interval)) as [n|] eqn:E; [|discriminate].
  apply validSeconds_range in E as [_ Hn].
  destruct (invoke_available env); [|discriminate].
  intros [= <- <- <-]. split; [reflexivity|].
  assert (Hp : Js.parseInt10 (Js.numberToString (Z.to_nat n)) = Some n).
  { rewrite parseInt10_print by lia. f_equal. lia. }
  assert (Hv : exists c r, Js.numberToString (Z.to_nat n) = String c r).
  { destruct (Js.numberToString (Z.to_nat n)) eqn:Es; [discriminate Hp|eauto]. }
  destruct Hv as (c & r & Hs).
  unfold Viewer.restoreInterval. rewrite Hs, <- Hs, Hp.
  unfold Viewer.validSeconds.
  rewrite (proj2 (Z.leb_le 1 n)), (proj2 (Z.leb_le n 3600)) by lia.
  cbn [andb Viewer.withInterval Viewer.slideshowIntervalMs Viewer.slideshowTimer].
  destruct (Viewer.slideshowTimer s); reflexivity.
Qed.

Lemma X16_interval_round_trip_witness :
  Viewer.configure musicEnv (Some "45") Viewer.noSlideshow
  = (Viewer.withInterval 45000 Viewer.noSlideshow,
     Some ("slideshow_interval_seconds", "45")) /\
  Viewer.slideshowIntervalMs (Viewer.restoreInterval (Some "45") Viewer.noSlideshow)
  = 45000%Z.
Proof.
  split; [vm_compute; reflexivity|].
  destruct (X16_interval_round_trip musicEnv (Some "45") Viewer.noSlideshow
              (Viewer.withInterval 45000 Viewer.noSlideshow)
              "slideshow_interval_seconds" "45") as [_ H].
  - vm_compute. reflexivity.
  - exact H.
Defined.

(** ** The player and the viewer at their edges *)

(** X17: a track that cannot be started leaves the player as it was. When
    the path is empty, outside Tauri, when the backend rejects the request
    or returns no data, [startAudioPlayback] assigns no source and plays
    nothing: the source and the paused state of the audio element are
    unchanged, so a track that was playing goes on, and the last thing done
    is an error message in the help panel. *)
Theorem X17_failed_track_keeps_player
    (env : Env) (filePath : string) (p : Main.Player) :
  filePath = "" \/ invoke_available env = false \/
  read_file_as_audio_url env filePath = None \/
  read_file_as_audio_url env filePath = Some "" ->
  let q := Main.startAudioPlayback env filePath p in
  Main.audio_src q = Main.audio_src p /\
  Main.paused q = Main.paused p /\
  Main.selectedTrackPath q = Main.selectedTrackPath p /\
  exists added msg,
    Main.plog q = (Main.plog p ++ added ++ [Help msg true])%list /\
    (PlayMedia ∉ added) /\ (forall u, SetSrc u ∉ added).
Proof.
  intros H. unfold Main.startAudioPlayback.
  destruct filePath as [|c r].
  { repeat split. exists [], "Audio not available.". simpl.
    split; [reflexivity|]. split; [|intros u]; intros Hin; inversion Hin. }
  destruct (invoke_available env) eqn:Hi; simpl negb; cbv iota.
  2:{ repeat split. exists [], "Tauri not available.". simpl.
      split; [reflexivity|]. split; [|intros u]; intros Hin; inversion Hin. }
  destruct H as [H | [H | [H | H]]]; try discriminate; rewrite H.
  - repeat split.
    exists [Help "Loading…" false; Invoke "read_file_as_audio_url" (String c r)],
           "Playback failed".
    simpl. rewrite <- !app_assoc. split; [reflexivity|].
    split; [|intros u]; intros Hin;
      repeat (apply elem_of_cons in Hin as [Hin | Hin]; [discriminate|]);
      inversion Hin.
  - repeat split.
    exists [Help "Loading…" false; Invoke "read_file_as_audio_url" (String c r);
            Help "" false],
           "Playback failed: no data.".
    simpl. rewrite <- !app_assoc. split; [reflexivity|].
    split; [|intros u]; intros Hin;
      repeat (apply elem_of_cons in Hin as [Hin | Hin]; [discriminate|]);
      inversion Hin.
Qed.

Lemma X17_failed_track_keeps_player_witness :
  let playing := Main.handle musicEnv (Main.SelectTrack "C:\Music\a.mp3") Main.idle in
  Main.audio_src (Main.startAudioPlayback brokenEnv "C:\Music\b.mp3" playing)
  = Some "data:audio;base64,C:\Music\a.mp3" /\
  Main.paused (Main.startAudioPlayback brokenEnv "C:\Music\b.mp3" playing) = false.
Proof.
  intros playing.
  destruct (X17_failed_track_keeps_player brokenEnv "C:\Music\b.mp3" playing)
    as (H1 & H2 & _).
  - right. right. left. reflexivity.
  - split; [rewrite H1 | rewrite H2]; reflexivity.
Defined.

Lemma syncFromState_empty env answer s :
  Viewer.paths s = [] -> Viewer.syncFromState env answer s = s.
Proof.
  intros H. unfold Viewer.syncFromState.
  rewrite (bool_decide_eq_true_2 _ H). now rewrite orb_true_r.
Qed.

(** X18: a viewer that opened without a sequence stays empty. When the
    context fetched at opening is missing, has no sequence or an empty one,
    the viewer shows the text No images and keeps its empty sequence; and
    whatever contexts the backend offers at later focus events, the viewer
    never adopts one: its state stays exactly what it was after opening. *)
Theorem X18_empty_viewer_never_syncs
    (env : Env) (c : Viewer.Context) (later : list (option Viewer.Context)) :
  invoke_available env = true ->
  Viewer.usable c = None ->
  let opened := Viewer.init env (Some c) Viewer.initial in
  Viewer.paths opened = [] /\
  view (Viewer.content (Viewer.pane opened)) = Text "No images" /\
  foldl (fun s answer => Viewer.syncFromState env answer s) opened later = opened.
Proof.
  intros Hi Hu opened.
  assert (Hp : Viewer.paths opened = []).
  { unfold opened, Viewer.init. now rewrite Hi, Hu. }
  split; [exact Hp|]. split.
  - unfold opened, Viewer.init. now rewrite Hi, Hu.
  - induction later as [|a later IH]; [reflexivity|].
    simpl. now rewrite (syncFromState_empty env a opened Hp).
Qed.

Lemma X18_empty_viewer_never_syncs_witness :
  let opened := Viewer.init musicEnv (Some (Some (Some [], Viewer.JNum 0))) Viewer.initial in
  Viewer.syncFromState musicEnv (contextOf ["C:\Photos\a.jpg"] (Viewer.JNum 0)) opened
  = opened.
Proof.
  intros opened.
  destruct (X18_empty_viewer_never_syncs musicEnv (Some (Some [], Viewer.JNum 0))
              [contextOf ["C:\Photos\a.jpg"] (Viewer.JNum 0)]) as (_ & _ & H).
  - reflexivity.
  - reflexivity.
  - exact H.
Defined.

(** ** The splitters *)

(** X19: what dragging a splitter can do. The left panel never gets wider
    than the maximum, and when the window leaves room for the minimum of
    200 pixels it never gets narrower than that and follows the mouse in
    between; in a window too narrow for the minimum the panel is pinned to
    the maximum. The two sections at a horizontal splitter each keep at
    least 60 pixels and at least their own minimum; while neither minimum
    is reached their heights add up to what they were, and beyond that the
    pair takes more room than it had. *)
Theorem X19_splitter_bounds
    (maxW startW startX clientX : Z) (b : Splitters.Bar)
    (h0 h1 startY clientY : Z) :
  let w := Splitters.onMoveVertical maxW startW startX clientX in
  let '(a, c) := Splitters.drag b (h0, h1) startY clientY in
  let dy := (clientY - startY)%Z in
  (w <= maxW)%Z /\
  (200 <= maxW -> 200 <= w)%Z /\
  (200 <= startW + (clientX - startX) <= maxW -> w = startW + (clientX - startX))%Z /\
  (maxW < 200 -> w = maxW)%Z /\
  (60 <= a /\ 60 <= c /\ fst (Splitters.minima b) <= a /\ snd (Splitters.minima b) <= c)%Z /\
  (h0 + h1 <= a + c)%Z /\
  (Z.max 60 (fst (Splitters.minima b)) <= h0 + dy ->
   Z.max 60 (snd (Splitters.minima b)) <= h1 - dy ->
   a = h0 + dy /\ c = h1 - dy /\ a + c = h0 + h1)%Z.
Proof.
  unfold Splitters.onMoveVertical, Splitters.drag, Splitters.onMoveHorizontal,
    Splitters.MIN_LEFT_WIDTH, Splitters.MIN_SECTION_HEIGHT.
  cbn [fst snd]. destruct b; cbn [Splitters.minima fst snd];
    unfold Splitters.MIN_SECTION_HEIGHT; repeat split; lia.
Qed.

Lemma X19_splitter_bounds_witness :
  Splitters.onMoveVertical 600 300 100 50 = 250%Z /\
  Splitters.drag Splitters.Right1 (200, 150)%Z 0 100 = (300, 120)%Z.
Proof.
  pose proof (X19_splitter_bounds 600 300 100 50 Splitters.Right1 200 150 0 100) as H.
  cbv zeta in H.
  destruct (Splitters.drag Splitters.Right1 (200, 150)%Z 0 100) as [a c] eqn:E.
  destruct H as (_ & _ & Hw & _).
  split; [apply Hw; lia|]. rewrite <- E. reflexivity.
Defined.

(** ** Extensions *)

Lemma split_lacks s : lacks "." s -> Js.split "." s = [s].
Proof.
  induction s as [|c s IH]; intros H; [reflexivity|].
  apply lacks_cons in H as [Hc Hs]. simpl. now rewrite Hc, (IH Hs).
Qed.

Lemma split_nonempty s : Js.split "." s <> [].
Proof.
  destruct s as [|c s]; simpl; [discriminate|].
  destruct (Ascii.eqb c "."); [discriminate|]. destruct (Js.split "." s); discriminate.
Qed.

Lemma split_app a b :
  exists x l, Js.split "." (a +:+ String "." b) = ((x :: l) ++ Js.split "." b)%list.
Proof.
  induction a as [|c a (x & l & IH)]; simpl.
  - exists "", []. reflexivity.
  - rewrite IH. destruct (Ascii.eqb c ".").
    + exists "", (x :: l). reflexivity.
    + exists (String c x), l. reflexivity.
Qed.

Lemma pop_split_app a b :
  Js.pop (Js.split "." (a +:+ String "." b)) = Js.pop (Js.split "." b).
Proof.
  destruct (split_app a b) as (x & l & ->). unfold Js.pop. rewrite last_app.
  destruct (last (Js.split "." b)) eqn:E; [reflexivity|].
  apply last_None in E. now destruct (split_nonempty b).
Qed.

(** X20: the extension is what follows the last dot, in lower case. For a
    name made of a stem, a dot and a dot-free ending, [getExt] is that
    ending in lower case, whatever dots the stem holds; a name without any
    dot is its own extension, so a file called jpg counts as an image; and
    a name that ends in a dot has the empty extension and is never shown
    in the grid. *)
Theorem X20_extension_after_last_dot (stem ending : string) :
  lacks "." ending ->
  getExt (stem +:+ String "." ending) = Js.toLowerCase ending /\
  getExt ending = Js.toLowerCase ending /\
  isMediaFile (stem +:+ String "." ending) = isMediaFile ending /\
  isMediaFile (stem +:+ ".") = false.
Proof.
  intros H.
  assert (H1 : getExt ending = Js.toLowerCase ending).
  { unfold getExt. rewrite (split_lacks _ H). simpl. now destruct ending. }
  assert (H2 : getExt (stem +:+ String "." ending) = Js.toLowerCase ending).
  { rewrite <- H1. unfold getExt. now rewrite pop_split_app. }
  split; [exact H2|]. split; [exact H1|]. split.
  - unfold isMediaFile. now rewrite H1, H2.
  - unfold isMediaFile, getExt. rewrite pop_split_app. reflexivity.
Qed.

Lemma X20_extension_after_last_dot_witness :
  getExt "holiday.2024.JPeG" = "jpeg" /\ getExt "README" = "readme".
Proof.
  destruct (X20_extension_after_last_dot "holiday.2024" "JPeG") as (H & _);
    [reflexivity|].
  destruct (X20_extension_after_last_dot "" "README") as (_ & H' & _);
    [reflexivity|].
  split; [exact H | exact H'].
Defined.

(** ** What rendering the grid costs *)

(** X21: when the grid is rendered inside Tauri, a cell asks the backend
    only if its file is a video, and then exactly once, for the thumbnail;
    the cells of images, HEIC and PDF files ask nothing at that point. An
    asset reference is made for image cells only. *)
Theorem X21_render_requests_per_kind (env : Env) (f : Entry) (k : Kind) :
  kindOf (name f) = Some k ->
  invoke_available env = true ->
  invocations (thumbnail env f) = (match k with Video => 1 | _ => 0 end)%nat /\
  (forall e, e ∈ log (thumbnail env f) -> is_asset_ref e = true -> k = Image).
Proof.
  intros Hk Hi. pose proof (kindOf_Some _ _ Hk) as [_ Hflags].
  unfold thumbnail. destruct k; try contradiction.
  - destruct Hflags as (-> & -> & ->). split; [|reflexivity].
    destruct (convertFileSrc env) as [conv|]; [|reflexivity].
    destruct (conv (path f)); reflexivity.
  - destruct Hflags as (-> & -> & ->). rewrite Hi.
    destruct (get_video_thumbnail_data_url env (path f)); split; try reflexivity;
      intros e He; simpl in He;
      repeat (apply elem_of_cons in He as [-> | He]; [discriminate|]);
      inversion He.
  - rewrite Hflags. split; [reflexivity|].
    intros e He. simpl in He. apply list_elem_of_singleton in He as ->. discriminate.
  - destruct Hflags as (-> & ->). split; [reflexivity|].
    intros e He. simpl in He. apply list_elem_of_singleton in He as ->. discriminate.
Qed.

Lemma X21_render_requests_per_kind_witness :
  invocations (thumbnail musicEnv (file "c.mp4" "C:\Photos\c.mp4")) = 1%nat /\
  invocations (thumbnail musicEnv (file "b.jpg" "C:\Photos\b.jpg")) = 0%nat.
Proof.
  split.
  - apply (X21_render_requests_per_kind musicEnv (file "c.mp4" "C:\Photos\c.mp4") Video);
      [vm_compute|]; reflexivity.
  - apply (X21_render_requests_per_kind musicEnv (file "b.jpg" "C:\Photos\b.jpg") Image);
      [vm_compute|]; reflexivity.
Defined.
